(** * FairHire: the candidate scoring and ranking core

    A shallow embedding of the scoring function [analyzeApplication], its
    experience evaluator [evaluateExperience], the recruiter endpoint
    [POST /api/applications/rank] of the platform backend, and the earlier
    prototype ranking routine [rankCVs] of [utils/rank.js]; then of the
    simulated extraction, the token middleware, the address check and the
    submission and decision endpoints.

    Conventions.
    - JavaScript strings are modelled by [string], which holds the UTF-8
      bytes of the text; [JS.code_units] gives the UTF-16 code units that
      [length] counts and that a regular expression matches.  Of the case
      mappings only that of the ASCII letters is embedded: a property that
      rests on [toLowerCase] is stated for ASCII text.
    - JavaScript numbers that occur are integers and are modelled by [Z].
    - A value that may be [null] or [undefined] is an [option].
    - A thrown exception is the [Throw] case of [Exc]. *)

From Stdlib Require Import List String Ascii Bool Arith ZArith Lia.
From Stdlib Require Import Sorting.Sorted Sorting.Permutation.
From Stdlib Require Import DecimalString DecimalNat.
Import ListNotations.
Open Scope string_scope.
Open Scope Z_scope.

Set Implicit Arguments.

(* ------------------------------------------------------------------ *)
(** ** The JavaScript runtime functions the code calls *)

Module JS.

(** [c] lies in the inclusive character range [lo-hi]. *)
Definition in_range (lo hi c : ascii) : bool :=
  (nat_of_ascii lo <=? nat_of_ascii c)%nat && (nat_of_ascii c <=? nat_of_ascii hi)%nat.

Definition is_digit (c : ascii) : bool := in_range "0" "9" c.
Definition is_upper (c : ascii) : bool := in_range "A" "Z" c.
Definition is_lower (c : ascii) : bool := in_range "a" "z" c.
Definition is_letter (c : ascii) : bool := is_upper c || is_lower c.

Definition lower_char (c : ascii) : ascii :=
  if is_upper c then ascii_of_nat (nat_of_ascii c + 32) else c.

(** [String.prototype.toLowerCase], for ASCII text: the letters A to Z are
    mapped to a to z and every other byte is kept.  The case mappings of the
    characters beyond ASCII are not embedded. *)
Fixpoint toLowerCase (s : string) : string :=
  match s with
  | EmptyString => EmptyString
  | String c t => String (lower_char c) (toLowerCase t)
  end.

(** [String.prototype.includes]: [needle] occurs in [s] as a substring. *)
Fixpoint includes (s needle : string) : bool :=
  String.prefix needle s
  || match s with
     | EmptyString => false
     | String _ t => includes t needle
     end.

(** [Array.prototype.join]. *)
Fixpoint join (sep : string) (l : list string) : string :=
  match l with
  | [] => ""
  | [x] => x
  | x :: t => x ++ sep ++ join sep t
  end.

(** [Array.prototype.some] and [Array.prototype.filter] are [existsb] and
    [filter]. *)

(** Decimal rendering of a non-negative integer inside a template literal. *)
Definition show_nat (n : nat) : string := NilZero.string_of_uint (Nat.to_uint n).

(** Interpolation [${v}] of a value that may be absent. *)
Definition template (v : option string) : string :=
  match v with
  | Some s => s
  | None => "undefined"
  end.

(** The digits following the current position, up to the first non-digit. *)
Fixpoint digit_run (s : string) : string :=
  match s with
  | EmptyString => EmptyString
  | String c t => if is_digit c then String c (digit_run t) else EmptyString
  end.

(** [s.match(/(\d+)/)]: capture group 1 of the leftmost match, the maximal
    run of digits that starts at the first digit of [s]. *)
Fixpoint match_digits (s : string) : option string :=
  match s with
  | EmptyString => None
  | String c t => if is_digit c then Some (digit_run s) else match_digits t
  end.

Definition digit_value (c : ascii) : Z := Z.of_nat (nat_of_ascii c - 48).

Fixpoint parse_digits (acc : Z) (s : string) : Z :=
  match s with
  | EmptyString => acc
  | String c t => parse_digits (10 * acc + digit_value c) t
  end.

(** [parseInt] on a string of decimal digits. *)
Definition parseInt (s : string) : Z := parse_digits 0 s.

(** [Array.prototype.sort] with a comparator.  The language requires the
    sort to be stable, and a stable sort has one possible result for a
    comparator that is a difference of integer keys ([stable_sort_is_sort]
    below), so the algorithm is immaterial; this is insertion from the
    right, where an element goes in front of the first element it does not
    compare greater than. *)
Section Sort.
Variable A : Type.
Variable cmp : A -> A -> Z.

Fixpoint insert_sorted (x : A) (l : list A) : list A :=
  match l with
  | [] => [x]
  | y :: t => if cmp x y <=? 0 then x :: l else y :: insert_sorted x t
  end.

Definition sort (l : list A) : list A := fold_right insert_sorted [] l.
End Sort.

(** *** The regular expression of [extractEmail]

    [/[a-zA-Z0-9._%+-]+@[a-zA-Z0-9.-]+\.[a-zA-Z]{2,}/], matched the way a
    backtracking engine does: every quantifier is greedy, so a repetition
    first tries to take one more character and only when the rest of the
    pattern then fails does it stop where it is. *)

Definition one_of (cs : string) (c : ascii) : bool :=
  existsb (Ascii.eqb c) (list_ascii_of_string cs).

(** The class [[a-zA-Z0-9._%+-]]. *)
Definition is_local (c : ascii) : bool := is_letter c || is_digit c || one_of "._%+-" c.
(** The class [[a-zA-Z0-9.-]]. *)
Definition is_domain (c : ascii) : bool := is_letter c || is_digit c || one_of ".-" c.

(** [[a-zA-Z]*], which is last in the pattern and so takes all it can. *)
Fixpoint letter_run (s : string) : string :=
  match s with
  | EmptyString => EmptyString
  | String c t => if is_letter c then String c (letter_run t) else EmptyString
  end.

(** [\.[a-zA-Z]{2,}] at the start of [s]. *)
Definition match_tld (s : string) : option string :=
  match s with
  | String c t =>
      if Ascii.eqb c "." then
        let ls := letter_run t in
        if (2 <=? String.length ls)%nat then Some (String c ls) else None
      else None
  | EmptyString => None
  end.

(** [[a-zA-Z0-9.-]*\.[a-zA-Z]{2,}] at the start of [s]. *)
Fixpoint match_domain_more (s : string) : option string :=
  match s with
  | EmptyString => None
  | String c t =>
      match (if is_domain c then match_domain_more t else None) with
      | Some m => Some (String c m)
      | None => match_tld s
      end
  end.

(** [[a-zA-Z0-9.-]+\.[a-zA-Z]{2,}] at the start of [s]. *)
Definition match_domain (s : string) : option string :=
  match s with
  | String c t =>
      if is_domain c then option_map (String c) (match_domain_more t) else None
  | EmptyString => None
  end.

(** [@[a-zA-Z0-9.-]+\.[a-zA-Z]{2,}] at the start of [s]. *)
Definition match_at_sign (s : string) : option string :=
  match s with
  | String c t => if Ascii.eqb c "@" then option_map (String c) (match_domain t) else None
  | EmptyString => None
  end.

(** [[a-zA-Z0-9._%+-]*@...] at the start of [s]. *)
Fixpoint match_local_more (s : string) : option string :=
  match s with
  | EmptyString => None
  | String c t =>
      match (if is_local c then match_local_more t else None) with
      | Some m => Some (String c m)
      | None => match_at_sign s
      end
  end.

(** The whole pattern anchored at the start of [s]. *)
Definition match_email_here (s : string) : option string :=
  match s with
  | String c t =>
      if is_local c then option_map (String c) (match_local_more t) else None
  | EmptyString => None
  end.

(** [text.match(re)]: the match at the leftmost position that has one. *)
Fixpoint match_email (s : string) : option string :=
  match match_email_here s with
  | Some m => Some m
  | None =>
      match s with
      | EmptyString => None
      | String _ t => match_email t
      end
  end.

(** *** Code units

    A [string] holds the UTF-8 bytes of a text; JavaScript counts and
    matches the UTF-16 code units of the same text. *)

Definition byte (c : ascii) : N := N_of_ascii c.

(** A byte [10xxxxxx], which continues a sequence. *)
Definition continuation (c : ascii) : bool := (128 <=? byte c)%N && (byte c <? 192)%N.

Definition low6 (c : ascii) : N := (byte c mod 64)%N.

(** The code units of the text: one for a sequence of one, two or three
    bytes, the two surrogates for a sequence of four.  A byte that opens no
    well-formed sequence, which no text has, is read as U+FFFD. *)
Fixpoint code_units (s : string) : list N :=
  match s with
  | EmptyString => []
  | String b0 t0 =>
      if (byte b0 <? 128)%N then byte b0 :: code_units t0
      else
        match t0 with
        | String b1 t1 =>
            if (192 <=? byte b0)%N && (byte b0 <? 224)%N && continuation b1 then
              ((byte b0 - 192) * 64 + low6 b1)%N :: code_units t1
            else
              match t1 with
              | String b2 t2 =>
                  if (224 <=? byte b0)%N && (byte b0 <? 240)%N
                     && continuation b1 && continuation b2 then
                    ((byte b0 - 224) * 4096 + low6 b1 * 64 + low6 b2)%N :: code_units t2
                  else
                    match t2 with
                    | String b3 t3 =>
                        if (240 <=? byte b0)%N
                           && continuation b1 && continuation b2 && continuation b3 then
                          let point :=
                            ((byte b0 - 240) * 262144 + low6 b1 * 4096
                             + low6 b2 * 64 + low6 b3)%N in
                          (55296 + (point - 65536) / 1024)%N
                            :: (56320 + (point - 65536) mod 1024)%N :: code_units t3
                        else 65533%N :: code_units t0
                    | EmptyString => 65533%N :: code_units t0
                    end
              | EmptyString => 65533%N :: code_units t0
              end
        | EmptyString => [65533%N]
        end
  end.

(** [s.length]. *)
Definition string_length (s : string) : nat := List.length (code_units s).

End JS.

(* ------------------------------------------------------------------ *)
(** ** Exceptions *)

Inductive JsError : Type :=
| TypeError (msg : string).

Inductive Exc (A : Type) : Type :=
| Ok (a : A)
| Throw (e : JsError).

Arguments Ok {A} a.
Arguments Throw {A} e.

(* ------------------------------------------------------------------ *)
(** ** Data model *)

(** The object stored in the [cv_content] column, as [extractCVContent]
    builds it.  Every property may be missing. *)
Record CvContent : Type := mkCv {
  cv_name : option string;
  cv_email : option string;
  cv_skills : option (list string);
  cv_experience : option string;
  cv_education : option string;
  cv_achievements : option (list string);
  cv_extractedAt : option string
}.

(** A row of [job_descriptions].  [requirements] is [TEXT[] NOT NULL]. *)
Record JobDescription : Type := mkJob {
  job_id : Z;
  job_key : string;
  job_title : string;
  job_description : string;
  requirements : list string;
  is_active : bool
}.

(** What [analyzeApplication] returns. *)
Record Analysis : Type := mkAnalysis {
  score : Z;
  explanation : string
}.

(** The [dimensionScores] object that [analyzeApplication] fills in. *)
Record DimensionScores : Type := mkDims {
  dim_experience : Z;
  dim_skills : Z;
  dim_education : Z;
  dim_achievements : Z
}.

(** The local variables of [analyzeApplication] when it reaches its
    [return]. *)
Record AnalysisLocals : Type := mkLocals {
  totalScore : Z;
  explanationPoints : list string;
  dimensionScores : DimensionScores;
  matchedSkills : list string
}.

(* ------------------------------------------------------------------ *)
(** ** The scoring function *)

(** [evaluateExperience(cv, jobDescription)]. *)
Definition evaluateExperience (cv : CvContent) (jobDescription : JobDescription) : Z :=
  let yearsMatch :=
    match cv_experience cv with
    | Some e => JS.match_digits e
    | None => None
    end in
  let years :=
    match yearsMatch with
    | Some d => JS.parseInt d
    | None => 0
    end in
  if 6 <=? years then 25
  else if 4 <=? years then 20
  else if 2 <=? years then 15
  else 10.

(** [cv.education?.toLowerCase().includes(word)]: falsy when the property is
    missing. *)
Definition education_includes (cv : CvContent) (word : string) : bool :=
  match cv_education cv with
  | Some e => JS.includes (JS.toLowerCase e) word
  | None => false
  end.

(** The filter predicate of [matchedSkills]. *)
Definition skill_matches (applicantSkills : list string) (req : string) : bool :=
  existsb (fun app => JS.includes (JS.toLowerCase app) (JS.toLowerCase req)) applicantSkills.

Definition experience_line (cv : CvContent) (experienceScore : Z) : string :=
  if 20 <=? experienceScore then
    "✓ Excellent relevant experience: " ++ JS.template (cv_experience cv)
      ++ " with strong background in required areas"
  else if 15 <=? experienceScore then
    "✓ Good experience level with some relevant background"
  else
    "⚠️ Limited relevant experience detected".

Definition skills_line (matched : list string) : string :=
  if (0 <? List.length matched)%nat then
    "✓ " ++ JS.show_nat (List.length matched) ++ " matching skill(s): " ++ JS.join ", " matched
  else
    "⚠️ No matching skills found".

Definition education_score (cv : CvContent) : Z :=
  if education_includes cv "master" then 15
  else if education_includes cv "bachelor" then 10
  else 0.

Definition education_line (cv : CvContent) : string :=
  if education_includes cv "master" then "✓ Holds a Master's degree"
  else if education_includes cv "bachelor" then "✓ Holds a Bachelor's degree"
  else "⚠️ Education level not clearly specified".

Definition achievements_line (achievements : list string) : string :=
  if (0 <? List.length achievements)%nat then
    "✓ " ++ JS.show_nat (List.length achievements) ++ " notable achievement(s)"
  else
    "⚠️ No achievements mentioned".

(** The body of [analyzeApplication] once [cv] is an object, run down to the
    [return]: the locals it has built.  [requirements] cannot be missing, so
    the default of [jobDescription.requirements || []] is never taken. *)
Definition analyze_locals (cv : CvContent) (jobDescription : JobDescription) : AnalysisLocals :=
  (* 1. experience relevance *)
  let experienceScore := evaluateExperience cv jobDescription in
  let totalScore1 := 0 + experienceScore in
  let points1 := [experience_line cv experienceScore] in
  (* 2. skills match *)
  let requiredSkills := requirements jobDescription in
  let applicantSkills := match cv_skills cv with Some l => l | None => [] end in
  let matched := filter (skill_matches applicantSkills) requiredSkills in
  let skillsScore := Z.min 40 (Z.of_nat (List.length matched) * 8) in
  let totalScore2 := totalScore1 + skillsScore in
  let points2 := (points1 ++ [skills_line matched])%list in
  (* 3. education level *)
  let educationScore := education_score cv in
  let points3 := (points2 ++ [education_line cv])%list in
  let totalScore3 := totalScore2 + educationScore in
  (* 4. achievements *)
  let achievements := match cv_achievements cv with Some l => l | None => [] end in
  let achievementsScore := Z.min 20 (Z.of_nat (List.length achievements) * 4) in
  let totalScore4 := totalScore3 + achievementsScore in
  let points4 := (points3 ++ [achievements_line achievements])%list in
  {| totalScore := totalScore4;
     explanationPoints := points4;
     dimensionScores := {| dim_experience := experienceScore;
                           dim_skills := skillsScore;
                           dim_education := educationScore;
                           dim_achievements := achievementsScore |};
     matchedSkills := matched |}.

Definition newline : string := String (ascii_of_nat 10) EmptyString.

(** [analyzeApplication(cvContent, jobDescription)].  The driver hands the
    [JSONB] column over already parsed, so [cvContent] is an object or, for an
    SQL [NULL], [null]; on [null] the first property access, in
    [evaluateExperience], throws. *)
Definition analyzeApplication (cvContent : option CvContent) (jobDescription : JobDescription)
  : Exc Analysis :=
  match cvContent with
  | None => Throw (TypeError "Cannot read properties of null (reading 'experience')")
  | Some cv =>
      let st := analyze_locals cv jobDescription in
      Ok {| score := totalScore st;
            explanation := JS.join newline (explanationPoints st) |}
  end.

(* ------------------------------------------------------------------ *)
(** ** The database *)

(** A row of [applications].  [cv_content] is a [JSONB] column: [NULL], or
    the object that the submission endpoint stored. *)
Record Application : Type := mkApp {
  id : Z;
  app_job_key : option string;
  email : string;
  phone : string;
  cover_letter : option string;
  file_name : string;
  cv_content : option CvContent;
  ai_score : option Z;
  ai_explanation : option string;
  status : option string;
  anonymized_id : string;
  submitted_at : Z
}.

(** A row of [audit_logs], with the [details] object that the ranking
    endpoint writes. *)
Record AuditLog : Type := mkAudit {
  audit_user_id : Z;
  audit_action : string;
  audit_resource_type : string;
  audit_resource_id : option Z;
  audit_jobKey : string;
  audit_applicationsCount : nat;
  audit_ip_address : string
}.

(** The tables the endpoint reads and writes, and of [users] the ids of its
    rows, which [audit_logs.user_id] refers to.  A table is the list of its
    rows: a scan returns the rows that no [UPDATE] has rewritten in the order
    of the list.  Where a scan returns a rewritten row is left to the
    database: the theorems about a table after an update speak of its rows
    by membership and by id, not by their place in the list. *)
Record Db : Type := mkDb {
  users : list Z;
  job_descriptions : list JobDescription;
  applications : list Application;
  audit_logs : list AuditLog
}.

(* ------------------------------------------------------------------ *)
(** ** Handlers: database state and exceptions *)

Definition Handler (A : Type) : Type := Db -> Exc A * Db.

Definition ret {A : Type} (a : A) : Handler A := fun db => (Ok a, db).

Definition bind {A B : Type} (m : Handler A) (k : A -> Handler B) : Handler B :=
  fun db =>
    match m db with
    | (Ok a, db') => k a db'
    | (Throw e, db') => (Throw e, db')
    end.

Notation "x <- m ;; k" := (bind m (fun x => k))
  (at level 61, m at next level, right associativity).
Notation "m ;;; k" := (bind m (fun _ => k))
  (at level 61, right associativity).

(** [try { m } catch (error) { h }]: what the database holds when the
    exception is raised stays; nothing is rolled back. *)
Definition try_catch {A : Type} (m : Handler A) (h : JsError -> Handler A) : Handler A :=
  fun db =>
    match m db with
    | (Ok a, db') => (Ok a, db')
    | (Throw e, db') => h e db'
    end.

(** Lifting a computation that may throw and touches no table. *)
Definition lift {A : Type} (x : Exc A) : Handler A := fun db => (x, db).

(** *** The queries *)

Definition opt_string_is (o : option string) (s : string) : bool :=
  match o with
  | Some x => String.eqb x s
  | None => false
  end.

Definition is_null {A : Type} (o : option A) : bool :=
  match o with
  | Some _ => false
  | None => true
  end.

(** [SELECT * FROM job_descriptions WHERE job_key = $1]. *)
Definition select_job (jobKey : string) : Handler (list JobDescription) :=
  fun db => (Ok (filter (fun j => String.eqb (job_key j) jobKey) (job_descriptions db)), db).

(** The [WHERE] clause of the pending query. *)
Definition pending_unscored (jobKey : string) (a : Application) : bool :=
  opt_string_is (app_job_key a) jobKey
  && opt_string_is (status a) "pending"
  && is_null (ai_score a).

(** [SELECT * FROM applications WHERE job_key = $1 AND status = 'pending'
    AND ai_score IS NULL]. *)
Definition select_pending (jobKey : string) : Handler (list Application) :=
  fun db => (Ok (filter (pending_unscored jobKey) (applications db)), db).

Definition set_score (sc : Z) (ex : string) (target : Z) (a : Application) : Application :=
  if id a =? target then
    {| id := id a; app_job_key := app_job_key a; email := email a; phone := phone a;
       cover_letter := cover_letter a; file_name := file_name a;
       cv_content := cv_content a;
       ai_score := Some sc; ai_explanation := Some ex;
       status := status a; anonymized_id := anonymized_id a;
       submitted_at := submitted_at a |}
  else a.

(** [UPDATE applications SET ai_score = $1, ai_explanation = $2 WHERE id = $3].
    The rewritten rows are kept where they are in the list; the place of a
    rewritten row is of no consequence (see [Db]). *)
Definition update_score (sc : Z) (ex : string) (target : Z) : Handler unit :=
  fun db =>
    (Ok tt, {| users := users db;
               job_descriptions := job_descriptions db;
               applications := map (set_score sc ex target) (applications db);
               audit_logs := audit_logs db |}).

(** [logAuditEvent], as the ranking endpoint calls it.  The database
    refuses the [INSERT] when [user_id] is not the id of a row of [users]
    (the foreign key of the column); the [catch] swallows that failure, so
    the function never throws and then leaves no row.  The other values are
    always taken: the action and the resource type are constants of the
    caller, and [ip] is the address of the peer. *)
Definition logAuditEvent (userId : Z) (action resourceType : string) (resourceId : option Z)
    (jobKey : string) (applicationsCount : nat) (ip : string) : Handler unit :=
  fun db =>
    if existsb (Z.eqb userId) (users db) then
      (Ok tt, {| users := users db;
                 job_descriptions := job_descriptions db;
                 applications := applications db;
                 audit_logs := (audit_logs db ++
                   [{| audit_user_id := userId; audit_action := action;
                       audit_resource_type := resourceType; audit_resource_id := resourceId;
                       audit_jobKey := jobKey; audit_applicationsCount := applicationsCount;
                       audit_ip_address := ip |}])%list |})
    else (Ok tt, db).

(* ------------------------------------------------------------------ *)
(** ** The ranking endpoint *)

(** A property value of an object sent to the client. *)
Inductive JsVal : Type :=
| VNum (n : Z)
| VStr (s : string)
| VBool (b : bool).

(** An object as the sequence of its own properties. *)
Definition JsObject : Type := list (string * JsVal).

Definition keys (o : JsObject) : list string := map fst o.

(** An element of [rankedApplications]. *)
Record RankedApplication : Type := mkRanked {
  ra_id : Z;
  ra_anonymized_id : string;
  ra_score : Z;
  ra_explanation : string
}.

(** The object literal pushed on [rankedApplications]. *)
Definition ranked_object (r : RankedApplication) : JsObject :=
  [ ("id", VNum (ra_id r));
    ("anonymized_id", VStr (ra_anonymized_id r));
    ("score", VNum (ra_score r));
    ("explanation", VStr (ra_explanation r)) ].

Inductive Body : Type :=
| ErrorBody (error : string)
| RankBody (success : bool) (rankedApplications : list RankedApplication) (message : string).

Record Response : Type := mkResponse {
  status_code : Z;
  body : Body
}.

Record Request : Type := mkRequest {
  body_jobKey : option string;
  user_userId : Z;
  req_ip : string
}.

(** The [for (const app of applications)] loop. *)
Fixpoint rank_loop (apps : list Application) (jobDescription : JobDescription)
    (rankedApplications : list RankedApplication) : Handler (list RankedApplication) :=
  match apps with
  | [] => ret rankedApplications
  | app :: rest =>
      analysis <- lift (analyzeApplication (cv_content app) jobDescription) ;;
      update_score (score analysis) (explanation analysis) (id app) ;;;
      rank_loop rest jobDescription
        (rankedApplications ++
           [{| ra_id := id app; ra_anonymized_id := anonymized_id app;
               ra_score := score analysis; ra_explanation := explanation analysis |}])%list
  end.

(** The comparator [(a, b) => b.score - a.score]. *)
Definition by_score_desc (a b : RankedApplication) : Z := ra_score b - ra_score a.

(** The body of the [try] block of [POST /api/applications/rank].  The guard
    [!jobKey] holds for a missing key and for the empty string. *)
Definition rank_try (req : Request) : Handler Response :=
  match body_jobKey req with
  | None | Some EmptyString => ret (mkResponse 400 (ErrorBody "Job key is required"))
  | Some jobKey =>
      jobResult <- select_job jobKey ;;
      match jobResult with
      | [] => ret (mkResponse 404 (ErrorBody "Job not found"))
      | jobDescription :: _ =>
          apps <- select_pending jobKey ;;
          if (List.length apps =? 0)%nat then
            ret (mkResponse 400 (ErrorBody "No pending applications to rank"))
          else
            ranked <- rank_loop apps jobDescription [] ;;
            let sorted := JS.sort by_score_desc ranked in
            logAuditEvent (user_userId req) "AI_RANK" "applications" None
              jobKey (List.length apps) (req_ip req) ;;;
            ret (mkResponse 200
                   (RankBody true sorted
                      (JS.show_nat (List.length apps) ++ " applications ranked successfully")))
      end
  end.

(** [POST /api/applications/rank], after [authenticateToken] has let the
    request through. *)
Definition rank (req : Request) (db : Db) : Response * Db :=
  match try_catch (rank_try req)
          (fun _ => ret (mkResponse 500 (ErrorBody "Failed to rank applications"))) db with
  | (Ok r, db') => (r, db')
  | (Throw _, db') => (mkResponse 500 (ErrorBody "Failed to rank applications"), db')
  end.

(* ------------------------------------------------------------------ *)
(** ** The prototype ranking routine of [utils/rank.js] *)

(** An element of [uploadedCVs], as the [/upload] route builds it. *)
Record UploadedCV : Type := mkUpload {
  filename : string;
  content : string
}.

Record ChatMessage : Type := mkMessage {
  role : string;
  message_content : string
}.

(** An element of [results]: the properties of the CV spread first, then
    [explanation] and [email]. *)
Record RankedCV : Type := mkRankedCV {
  rcv_filename : string;
  rcv_content : string;
  rcv_explanation : string;
  rcv_email : string
}.

Definition ranked_cv_object (r : RankedCV) : JsObject :=
  [ ("filename", VStr (rcv_filename r));
    ("content", VStr (rcv_content r));
    ("explanation", VStr (rcv_explanation r));
    ("email", VStr (rcv_email r)) ].

(** [extractEmail(text)]. *)
Definition extractEmail (text : string) : string :=
  match JS.match_email text with
  | Some m => m
  | None => "unknown@example.com"
  end.

Definition screening_prompt : string :=
  "You are an AI that screens resumes fairly. Hide names/nationalities and give a brief ranking explanation.".

(** The comparator [(a, b) => b.explanation.length - a.explanation.length]. *)
Definition by_explanation_length_desc (a b : RankedCV) : Z :=
  Z.of_nat (JS.string_length (rcv_explanation b))
  - Z.of_nat (JS.string_length (rcv_explanation a)).

Section RankCVs.
(** The chat completion service: from the model name and the messages to
    [response.data.choices[0].message.content]. *)
Variable createChatCompletion : string -> list ChatMessage -> string.

Definition rank_one (jobDesc : string) (cv : UploadedCV) : RankedCV :=
  let response :=
    createChatCompletion "gpt-4"
      [ {| role := "system"; message_content := screening_prompt |};
        {| role := "user";
           message_content := "Job: " ++ jobDesc ++ newline ++ "CV:" ++ newline ++ content cv |} ] in
  {| rcv_filename := filename cv;
     rcv_content := content cv;
     rcv_explanation := response;
     rcv_email := extractEmail (content cv) |}.

(** [rankCVs(cvs, jobDesc)]. *)
Definition rankCVs (cvs : list UploadedCV) (jobDesc : string) : list RankedCV :=
  JS.sort by_explanation_length_desc (map (rank_one jobDesc) cvs).
End RankCVs.

(* ================================================================== *)
(** * Vocabulary of the properties *)

(** ** The evaluators *)

(** The tier table on its own. *)
Definition tier (years : Z) : Z :=
  if 6 <=? years then 25
  else if 4 <=? years then 20
  else if 2 <=? years then 15
  else 10.

Definition no_digit (s : string) : Prop :=
  forall c, In c (list_ascii_of_string s) -> JS.is_digit c = false.

(** What an [experience] property says about the years of experience: the
    first number written in it, and zero when the property is missing or
    holds no digit. *)
Inductive states_years : option string -> Z -> Prop :=
| years_missing : states_years None 0
| years_unwritten (t : string) : no_digit t -> states_years (Some t) 0
| years_written (pre : string) (n : nat) (rest : string) :
    no_digit pre -> JS.digit_run rest = "" ->
    states_years (Some (pre ++ JS.show_nat n ++ rest)) (Z.of_nat n).

Definition skills_of (cv : CvContent) : list string :=
  match cv_skills cv with Some l => l | None => [] end.

Definition no_match_warning : string := "⚠️ No matching skills found".

(** ** Sorting *)

(** [a] may stand before [b] in a list that descends along [key]. *)
Definition key_desc {A : Type} (key : A -> Z) (a b : A) : Prop := key b <= key a.

Definition has_key {A : Type} (key : A -> Z) (k : Z) (a : A) : bool := key a =? k.

(** ** The scoring loop *)

(** An application paired with the analysis the loop obtained for it. *)
Definition evaluated (job : JobDescription) (p : Application * Analysis) : Prop :=
  analyzeApplication (cv_content (fst p)) job = Ok (snd p).

Definition entry_of (p : Application * Analysis) : RankedApplication :=
  {| ra_id := id (fst p); ra_anonymized_id := anonymized_id (fst p);
     ra_score := score (snd p); ra_explanation := explanation (snd p) |}.

Definition eval_id (p : Application * Analysis) : Z := id (fst p).

(** The effect on one row of the update issued for [p]. *)
Definition store_one (p : Application * Analysis) (r : Application) : Application :=
  set_score (score (snd p)) (explanation (snd p)) (id (fst p)) r.

(** The effect on one row of the updates issued for [evals], in order. *)
Fixpoint store_row (evals : list (Application * Analysis)) (r : Application) : Application :=
  match evals with
  | [] => r
  | p :: rest => store_row rest (store_one p r)
  end.

Definition store (evals : list (Application * Analysis)) (db : Db) : Db :=
  {| users := users db;
     job_descriptions := job_descriptions db;
     applications := map (store_row evals) (applications db);
     audit_logs := audit_logs db |}.

Definition id_in (ids : list Z) (a : Application) : bool := existsb (Z.eqb (id a)) ids.

(** ** The endpoint, case by case *)

Definition jobs_with_key (jobKey : string) (db : Db) : list JobDescription :=
  filter (fun j => String.eqb (job_key j) jobKey) (job_descriptions db).

Definition pending_rows (jobKey : string) (db : Db) : list Application :=
  filter (pending_unscored jobKey) (applications db).

Definition failed : Response := mkResponse 500 (ErrorBody "Failed to rank applications").
Definition not_found : Response := mkResponse 404 (ErrorBody "Job not found").
Definition empty_batch : Response := mkResponse 400 (ErrorBody "No pending applications to rank").
Definition key_required : Response := mkResponse 400 (ErrorBody "Job key is required").

Definition with_audit (db : Db) (req : Request) (jobKey : string) (n : nat) : Db :=
  snd (logAuditEvent (user_userId req) "AI_RANK" "applications" None jobKey n (req_ip req) db).

Definition ranked_response (n : nat) (ranked : list RankedApplication) : Response :=
  mkResponse 200
    (RankBody true (JS.sort by_score_desc ranked)
       (JS.show_nat n ++ " applications ranked successfully")).

(** What the endpoint answers and leaves in the database, by case. *)
Inductive rank_outcome (req : Request) (db : Db) (jobKey : string) : Response * Db -> Prop :=
| outcome_not_found :
    jobs_with_key jobKey db = [] ->
    rank_outcome req db jobKey (not_found, db)
| outcome_empty (j : JobDescription) (js : list JobDescription) :
    jobs_with_key jobKey db = j :: js ->
    pending_rows jobKey db = [] ->
    rank_outcome req db jobKey (empty_batch, db)
| outcome_ranked (j : JobDescription) (js : list JobDescription)
    (evals : list (Application * Analysis)) :
    jobs_with_key jobKey db = j :: js ->
    pending_rows jobKey db = map fst evals ->
    evals <> [] ->
    Forall (evaluated j) evals ->
    rank_outcome req db jobKey
      (ranked_response (List.length evals) (map entry_of evals),
       with_audit (store evals db) req jobKey (List.length evals))
| outcome_aborted (j : JobDescription) (js : list JobDescription)
    (evals : list (Application * Analysis)) (bad : Application) (post : list Application)
    (e : JsError) :
    jobs_with_key jobKey db = j :: js ->
    pending_rows jobKey db = (map fst evals ++ bad :: post)%list ->
    Forall (evaluated j) evals ->
    analyzeApplication (cv_content bad) j = Throw e ->
    rank_outcome req db jobKey (failed, store evals db).

(** ** What the answer depends on *)

(** Two stored CVs that agree on the four properties that are scored. *)
Definition same_merits (c1 c2 : option CvContent) : Prop :=
  match c1, c2 with
  | Some x, Some y =>
      cv_skills x = cv_skills y /\ cv_experience x = cv_experience y /\
      cv_education x = cv_education y /\ cv_achievements x = cv_achievements y
  | None, None => True
  | _, _ => False
  end.

(** Two application rows that differ at most in what identifies the
    applicant: e-mail address, phone number, cover letter, file name, the
    [name], [email] and [extractedAt] properties of the stored CV, and the
    stored explanation and submission time. *)
Definition same_but_identity (a1 a2 : Application) : Prop :=
  id a1 = id a2 /\ app_job_key a1 = app_job_key a2 /\ status a1 = status a2 /\
  ai_score a1 = ai_score a2 /\ anonymized_id a1 = anonymized_id a2 /\
  same_merits (cv_content a1) (cv_content a2).

(* ------------------------------------------------------------------ *)
(** ** Sample data *)

Definition cv_with_experience (e : option string) : CvContent :=
  {| cv_name := None; cv_email := None; cv_skills := None; cv_experience := e;
     cv_education := None; cv_achievements := None; cv_extractedAt := None |}.

Definition any_job (reqs : list string) : JobDescription :=
  {| job_id := 1; job_key := "software-engineer"; job_title := "Software Engineer";
     job_description := ""; requirements := reqs; is_active := true |}.

Definition dev_job (active : bool) : JobDescription :=
  {| job_id := 1; job_key := "dev"; job_title := "Developer";
     job_description := "Full-stack development";
     requirements := ["JavaScript"; "SQL"]; is_active := active |}.

Definition extracted_cv (name : string) : CvContent :=
  {| cv_name := Some name;
     cv_email := Some "[CONTACT INFO HIDDEN UNTIL DECISION]";
     cv_skills := Some ["javascript"; "react"; "sql"];
     cv_experience := Some "6 years";
     cv_education := Some "Bachelor's degree";
     cv_achievements := Some ["Led successful project implementations";
                              "Improved system performance by 30%";
                              "Collaborated with cross-functional teams"];
     cv_extractedAt := Some "2024-01-01T00:00:00.000Z" |}.

Definition application (i : Z) (mail anon : string) (cv : option CvContent) (submitted : Z)
  : Application :=
  {| id := i; app_job_key := Some "dev"; email := mail; phone := "0123456789";
     cover_letter := None; file_name := "cv.pdf"; cv_content := cv;
     ai_score := None; ai_explanation := None; status := Some "pending";
     anonymized_id := anon; submitted_at := submitted |}.

Definition recruiter_request : Request :=
  {| body_jobKey := Some "dev"; user_userId := 7; req_ip := "10.0.0.1" |}.

(** A request whose token names a user that [users] does not hold. *)
Definition stranger_request : Request :=
  {| body_jobKey := Some "dev"; user_userId := 8; req_ip := "10.0.0.1" |}.

Definition redacted : string := "[REDACTED FOR BIAS PREVENTION]".

(** One pending application for a job that has been deactivated. *)
Definition db_closed_job : Db :=
  {| users := [7];
     job_descriptions := [dev_job false];
     applications := [application 1 "ann@example.org" "APP_AAA111" (Some (extracted_cv redacted)) 100];
     audit_logs := [] |}.

(** The second of three pending applications has no stored CV. *)
Definition db_broken_cv : Db :=
  {| users := [7];
     job_descriptions := [dev_job true];
     applications := [application 1 "ann@example.org" "APP_AAA111" (Some (extracted_cv redacted)) 100;
                      application 2 "bob@example.org" "APP_BBB222" None 200;
                      application 3 "cyd@example.org" "APP_CCC333" (Some (extracted_cv redacted)) 300];
     audit_logs := [] |}.

(** Two pending applications with the same merits; the scan returns the
    later submission first. *)
Definition db_tie : Db :=
  {| users := [7];
     job_descriptions := [dev_job true];
     applications := [application 2 "bob@example.org" "APP_BBB222" (Some (extracted_cv redacted)) 200;
                      application 1 "ann@example.org" "APP_AAA111" (Some (extracted_cv redacted)) 100];
     audit_logs := [] |}.

(** The same two applications under other names and addresses. *)
Definition db_tie_other_people : Db :=
  {| users := [7];
     job_descriptions := [dev_job true];
     applications := [application 2 "eve@example.net" "APP_BBB222" (Some (extracted_cv "Eve")) 250;
                      application 1 "dan@example.net" "APP_AAA111" (Some (extracted_cv "Dan")) 150];
     audit_logs := [] |}.

Definition db_no_jobs : Db :=
  {| users := []; job_descriptions := []; applications := []; audit_logs := [] |}.

Definition explanation_63 : string :=
  "✓ Excellent relevant experience: 6 years with strong background in required areas"
  ++ newline ++ "✓ 2 matching skill(s): JavaScript, SQL"
  ++ newline ++ "✓ Holds a Bachelor's degree"
  ++ newline ++ "✓ 3 notable achievement(s)".

Definition tie_entries : list RankedApplication :=
  [ {| ra_id := 2; ra_anonymized_id := "APP_BBB222"; ra_score := 63;
       ra_explanation := explanation_63 |};
    {| ra_id := 1; ra_anonymized_id := "APP_AAA111"; ra_score := 63;
       ra_explanation := explanation_63 |} ].

(** A completion service that answers every request alike. *)
Definition canned_reply (model : string) (messages : list ChatMessage) : string :=
  "Relevant experience; meets the requirements.".

Definition jane_upload : UploadedCV :=
  {| filename := "jane_doe.txt";
     content := "Jane Doe, jane.doe@example.org, 6 years of JavaScript and SQL" |}.

(* ------------------------------------------------------------------ *)
(** ** Vocabulary of the further properties *)

(** Row [a'] holds what row [a] holds in every column but the score and
    the explanation, and has a score if [a] has one. *)
Definition keeps_columns (a a' : Application) : Prop :=
  id a' = id a /\ app_job_key a' = app_job_key a /\ email a' = email a /\
  phone a' = phone a /\ cover_letter a' = cover_letter a /\
  file_name a' = file_name a /\ cv_content a' = cv_content a /\
  status a' = status a /\ anonymized_id a' = anonymized_id a /\
  submitted_at a' = submitted_at a /\
  (ai_score a <> None -> ai_score a' <> None).

(** The audit row that a ranking of [n] applications writes. *)
Definition rank_audit_row (req : Request) (jobKey : string) (n : nat) : AuditLog :=
  {| audit_user_id := user_userId req; audit_action := "AI_RANK";
     audit_resource_type := "applications"; audit_resource_id := None;
     audit_jobKey := jobKey; audit_applicationsCount := n;
     audit_ip_address := req_ip req |}.

(* ------------------------------------------------------------------ *)
(** ** The simulated CV extraction *)

Definition skillSets : list (list string) :=
  [ ["JavaScript"; "React"; "Node.js"; "SQL"; "Git"; "CSS"];
    ["Python"; "Django"; "PostgreSQL"; "Docker"; "AWS"; "Linux"];
    ["Java"; "Spring Boot"; "Microservices"; "Kubernetes"; "Jenkins"; "Maven"];
    ["Data Science"; "Machine Learning"; "Python"; "TensorFlow"; "Pandas"; "SQL"];
    ["Product Management"; "Agile"; "User Research"; "Analytics"; "Leadership"; "Strategy"] ].

(** [extractCVContent(fileBuffer, fileName)].  What the run draws from
    outside is given: [pick] is [Math.floor(Math.random() * skillSets.length)],
    [roll] is [Math.floor(Math.random() * 8)] and [now] is
    [new Date().toISOString()]. *)
Definition extractCVContent (pick roll : nat) (now : string) (fileBuffer fileName : string)
  : CvContent :=
  let selectedSkills := nth pick skillSets [] in
  let experience := (roll + 2)%nat in
  let selectedSkills :=
    if JS.includes (JS.toLowerCase fileName) "senior"
    then (selectedSkills ++ ["Leadership"; "Mentoring"; "Architecture"])%list
    else selectedSkills in
  {| cv_name := Some "[REDACTED FOR BIAS PREVENTION]";
     cv_email := Some "[CONTACT INFO HIDDEN UNTIL DECISION]";
     cv_skills := Some selectedSkills;
     cv_experience := Some (JS.show_nat experience ++ " years");
     cv_education := Some (if (5 <? experience)%nat then "Master's degree" else "Bachelor's degree");
     cv_achievements := Some [ "Led successful project implementations";
                               "Improved system performance by 30%";
                               "Collaborated with cross-functional teams";
                               "Mentored junior team members" ];
     cv_extractedAt := Some now |}.

(** The [job_key] and [requirements] of the five [defaultJobs] that
    [insertDefaultData] seeds. *)
Definition default_requirements : list (string * list string) :=
  [ ("software-engineer",
     ["3+ years experience"; "Bachelor degree in CS or related field";
      "JavaScript/Python/Java proficiency"; "Database knowledge";
      "Cloud platforms experience"]);
    ("data-scientist",
     ["Masters in Data Science/Statistics"; "Python/R programming";
      "Machine learning expertise"; "SQL proficiency"; "Data visualization tools"]);
    ("product-manager",
     ["5+ years product management"; "MBA preferred"; "Agile methodology";
      "User research experience"; "Leadership skills"]);
    ("marketing-manager",
     ["3+ years marketing experience"; "Digital marketing expertise";
      "Analytics tools proficiency"; "Campaign management"; "Brand strategy"]);
    ("sales-representative",
     ["2+ years B2B sales"; "CRM experience"; "Communication skills";
      "Relationship building"; "Target achievement record"]) ].

(* ------------------------------------------------------------------ *)
(** ** Vocabulary of the scoring properties *)

Definition achievements_of (cv : CvContent) : list string :=
  match cv_achievements cv with Some l => l | None => [] end.


(* ------------------------------------------------------------------ *)
(** ** The address check of the registration and submission endpoints *)

Module Validation.

(** The code units that [\s] matches: the white space and the line
    terminators of ECMAScript, which are tab, line feed, vertical tab, form
    feed, carriage return, space, U+00A0, U+1680, U+2000 to U+200A, U+2028,
    U+2029, U+202F, U+205F, U+3000 and U+FEFF. *)
Definition is_space (u : N) : bool :=
  existsb (N.eqb u)
    [9; 10; 11; 12; 13; 32; 160; 5760; 8232; 8233; 8239; 8287; 12288; 65279]%N
  || ((8192 <=? u)%N && (u <=? 8202)%N).

Definition at_sign : N := 64%N.
Definition dot : N := 46%N.

(** The class [[^\s@]]. *)
Definition is_address_char (u : N) : bool :=
  negb (is_space u) && negb (u =? at_sign)%N.

(** [[^\s@]*$]. *)
Fixpoint chars_to_end (s : list N) : bool :=
  match s with
  | [] => true
  | c :: t => is_address_char c && chars_to_end t
  end.

(** [\.[^\s@]+$] at the start of [s]. *)
Definition match_dot (s : list N) : bool :=
  match s with
  | c :: c' :: t => (c =? dot)%N && is_address_char c' && chars_to_end t
  | _ => false
  end.

(** [[^\s@]*\.[^\s@]+$] at the start of [s]: the repetition first takes one
    more character and gives it back when the rest does not match. *)
Fixpoint match_domain_more (s : list N) : bool :=
  match s with
  | [] => false
  | c :: t => (is_address_char c && match_domain_more t) || match_dot s
  end.

(** [[^\s@]+\.[^\s@]+$] at the start of [s]. *)
Definition match_domain (s : list N) : bool :=
  match s with
  | c :: t => is_address_char c && match_domain_more t
  | [] => false
  end.

(** [@[^\s@]+\.[^\s@]+$] at the start of [s]. *)
Definition match_at_sign (s : list N) : bool :=
  match s with
  | c :: t => (c =? at_sign)%N && match_domain t
  | [] => false
  end.

(** [[^\s@]*@[^\s@]+\.[^\s@]+$] at the start of [s]. *)
Fixpoint match_local_more (s : list N) : bool :=
  match s with
  | [] => false
  | c :: t => (is_address_char c && match_local_more t) || match_at_sign s
  end.

(** [^[^\s@]+@[^\s@]+\.[^\s@]+$] on a sequence of code units. *)
Definition match_address (s : list N) : bool :=
  match s with
  | c :: t => is_address_char c && match_local_more t
  | [] => false
  end.

(** [emailRegex.test(email)] for [/^[^\s@]+@[^\s@]+\.[^\s@]+$/]. *)
Definition emailRegex_test (email : string) : bool := match_address (JS.code_units email).

End Validation.

(* ------------------------------------------------------------------ *)
(** ** The token middleware *)

(** The payload that [jwt.verify] hands to its callback. *)
Record TokenUser : Type := mkTokenUser {
  token_userId : Z;
  token_email : string;
  token_role : string
}.

(** What the middleware does with a request: answer it, or call [next()]
    with [req.user] set. *)
Inductive AuthOutcome : Type :=
| AuthAnswer (status : Z) (error : string)
| AuthNext (user : TokenUser).

(** [s.split(' ')]. *)
Fixpoint split_space (s : string) : list string :=
  match s with
  | EmptyString => [""]
  | String c t =>
      if Ascii.eqb c " " then "" :: split_space t
      else match split_space t with
           | [] => [String c ""]
           | field :: fields => String c field :: fields
           end
  end.

(** [authenticateToken], for the value of the [authorization] header and the
    verdict [verify] of [jwt.verify] on a token. *)
Definition authenticateToken (verify : string -> option TokenUser)
    (authHeader : option string) : AuthOutcome :=
  let token :=
    match authHeader with
    | None => None
    | Some EmptyString => Some ""
    | Some h => nth_error (split_space h) 1
    end in
  match token with
  | None | Some EmptyString => AuthAnswer 401 "Access token required"
  | Some t =>
      match verify t with
      | None => AuthAnswer 403 "Invalid or expired token"
      | Some user => AuthNext user
      end
  end.

(* ------------------------------------------------------------------ *)
(** ** The routes of the prototype server *)

(** An uploaded file, with the text that [fs.readFileSync(file.path,
    'utf-8')] returns for it. *)
Record MulterFile : Type := mkMulterFile {
  originalname : string;
  file_text : string
}.

(** [POST /upload]: what [files.forEach] leaves in [uploadedCVs]. *)
Definition upload (files : list MulterFile) (uploadedCVs : list UploadedCV) : list UploadedCV :=
  fold_left
    (fun store file =>
       (store ++ [{| filename := originalname file; content := file_text file |}])%list)
    files uploadedCVs.

(** [POST /rank]: the list handed to the [results] view. *)
Definition rank_route (createChatCompletion : string -> list ChatMessage -> string)
    (job_description : string) (uploadedCVs : list UploadedCV) : list RankedCV :=
  rankCVs createChatCompletion uploadedCVs job_description.

Inductive PrototypeRequest : Type :=
| PostUpload (files : list MulterFile)
| PostRank (job_description : string).

(** The store after a request. *)
Definition serve (uploadedCVs : list UploadedCV) (r : PrototypeRequest) : list UploadedCV :=
  match r with
  | PostUpload files => upload files uploadedCVs
  | PostRank _ => uploadedCVs
  end.

(* ------------------------------------------------------------------ *)
(** ** Vocabulary of the text properties *)

Definition all_chars (p : ascii -> bool) (s : string) : Prop :=
  forall c, In c (list_ascii_of_string s) -> p c = true.

(** [m] is made like the pattern of [extractEmail]: a local part, the at
    sign, a domain, a dot and at least two letters. *)
Definition address_shaped (m : string) : Prop :=
  exists l d t,
    m = l ++ "@" ++ d ++ "." ++ t /\
    l <> "" /\ all_chars JS.is_local l /\
    d <> "" /\ all_chars JS.is_domain d /\
    all_chars JS.is_letter t /\ (2 <= String.length t)%nat.

Definition occurs_in (m text : string) : Prop := exists pre post, text = pre ++ m ++ post.

(** Code units that are neither white space nor the at sign. *)
Definition address_units (l : list N) : Prop :=
  Forall (fun u => Validation.is_address_char u = true) l.

(** [s] is made like the pattern of the address check: its code units are a
    local part, the at sign, a domain, a dot and a last part. *)
Definition address_like (s : string) : Prop :=
  exists l d t,
    JS.code_units s = (l ++ [Validation.at_sign] ++ d ++ [Validation.dot] ++ t)%list /\
    l <> [] /\ address_units l /\
    d <> [] /\ address_units d /\
    t <> [] /\ address_units t.

(** Text of ASCII characters only, for which [JS.toLowerCase] is the
    lower-casing of JavaScript and a byte is a code unit. *)
Definition is_ascii (c : ascii) : bool := (nat_of_ascii c <? 128)%nat.

Definition is_ascii_text (s : string) : bool := forallb is_ascii (list_ascii_of_string s).

Definition ascii_text (s : string) : Prop := is_ascii_text s = true.

(** Two characters that are the same, or the two cases of one letter. *)
Definition same_letter (c d : ascii) : bool :=
  Ascii.eqb c d
  || (JS.is_upper c && (nat_of_ascii d =? nat_of_ascii c + 32)%nat)
  || (JS.is_upper d && (nat_of_ascii c =? nat_of_ascii d + 32)%nat).

(** Two texts that are the same but for the case of their letters. *)
Fixpoint equal_ignoring_case (s t : string) : bool :=
  match s, t with
  | EmptyString, EmptyString => true
  | String c s', String d t' => same_letter c d && equal_ignoring_case s' t'
  | _, _ => false
  end.

(** [m] occurs in [text] up to the case of its letters. *)
Definition occurs_ignoring_case (m text : string) : Prop :=
  exists pre found post,
    text = pre ++ found ++ post /\ equal_ignoring_case found m = true.

Definition all_ascii : list ascii := map ascii_of_nat (seq 0 256).

(** Two code units that the address check cannot tell apart. *)
Definition same_class (u v : N) : Prop :=
  Validation.is_address_char u = Validation.is_address_char v /\
  (u =? Validation.dot)%N = (v =? Validation.dot)%N /\
  (u =? Validation.at_sign)%N = (v =? Validation.at_sign)%N.

(** The no-break space U+00A0, in UTF-8. *)
Definition no_break_space : string :=
  String (ascii_of_nat 194) (String (ascii_of_nat 160) EmptyString).

Definition uploaded_by (r : PrototypeRequest) : list UploadedCV :=
  match r with
  | PostUpload files =>
      map (fun file => {| filename := originalname file; content := file_text file |}) files
  | PostRank _ => []
  end.

Definition no_space (s : string) : Prop := all_chars (fun c => negb (Ascii.eqb c " ")) s.

(* ------------------------------------------------------------------ *)
(** ** Further sample data *)

Definition junior_cv (skills achievements : list string) : CvContent :=
  {| cv_name := None; cv_email := None; cv_skills := Some skills;
     cv_experience := Some "3 years"; cv_education := Some "Bachelor's degree";
     cv_achievements := Some achievements; cv_extractedAt := None |}.

Definition sample_user : TokenUser :=
  {| token_userId := 7; token_email := "recruiter@example.org"; token_role := "recruiter" |}.

(** A verifier that accepts one token. *)
Definition sample_verify (token : string) : option TokenUser :=
  if String.eqb token "abc.def.ghi" then Some sample_user else None.

(* ------------------------------------------------------------------ *)
(** ** The submission endpoint *)

Module Submission.

Definition upper_char (c : ascii) : ascii :=
  if JS.is_lower c then ascii_of_nat (nat_of_ascii c - 32) else c.

(** [String.prototype.toUpperCase]. *)
Fixpoint toUpperCase (s : string) : string :=
  match s with
  | EmptyString => EmptyString
  | String c t => String (upper_char c) (toUpperCase t)
  end.

(** The text fields of the multipart body. *)
Record Body : Type := mkBody {
  f_jobKey : option string;
  f_email : option string;
  f_phone : option string;
  f_coverLetter : option string
}.

(** [req.file], as [upload.single('cvFile')] leaves it. *)
Record File : Type := mkFile {
  originalname : string;
  size : Z;
  mimetype : string;
  buffer : string
}.

Record Request : Type := mkRequest {
  body : Body;
  file : option File
}.

(** The parameters of the [INSERT INTO applications]. *)
Record InsertValues : Type := mkValues {
  v_job_key : string;
  v_email : string;
  v_phone : string;
  v_cover_letter : option string;
  v_file_name : string;
  v_file_size : Z;
  v_file_type : string;
  v_file_url : string;
  v_cv_content : CvContent;
  v_anonymized_id : string
}.

(** The [RETURNING id, anonymized_id, submitted_at] row. *)
Record Returned : Type := mkReturned {
  r_id : Z;
  r_anonymized_id : string;
  r_submitted_at : Z
}.

(** What one run takes from outside: the clock, the draws of [Math.random]
    in the order the run makes them, and what the database does with the
    [INSERT]: it refuses it, or it returns a row and holds a new table. *)
Record World : Type := mkWorld {
  now_ms : nat;
  pick : nat;
  roll : nat;
  now_iso : string;
  random36 : string;
  insert : InsertValues -> list Application -> option (Returned * list Application)
}.

Inductive Answer : Type :=
| Refused (status : Z) (error : string)
| Created (applicationId : Z) (anonymizedId : string) (submittedAt : Z).

(** A text field that is neither missing nor empty. *)
Definition given (o : option string) : option string :=
  match o with
  | Some (String c s) => Some (String c s)
  | _ => None
  end.

(** The [WHERE] clause of the duplicate check, for the lower-cased address
    (lower-cased as ASCII text is, see [JS.toLowerCase]). *)
Definition same_applicant (jobKey address : string) (a : Application) : bool :=
  opt_string_is (app_job_key a) jobKey
  && String.eqb (email a) (JS.toLowerCase address).

(** The [WHERE] clause of the job check. *)
Definition open_job (jobKey : string) (j : JobDescription) : bool :=
  String.eqb (job_key j) jobKey && is_active j.

Definition insert_values (w : World) (jobKey email phone : string)
    (coverLetter : option string) (f : File) : InsertValues :=
  let fileUrl := "stored_cv_" ++ JS.show_nat (now_ms w) ++ "_" ++ originalname f in
  let cvContent := extractCVContent (pick w) (roll w) (now_iso w) (buffer f) (originalname f) in
  let anonymizedId := "APP_" ++ toUpperCase (substring 2 6 (random36 w)) in
  {| v_job_key := jobKey; v_email := JS.toLowerCase email; v_phone := phone;
     v_cover_letter := coverLetter; v_file_name := originalname f;
     v_file_size := size f; v_file_type := mimetype f; v_file_url := fileUrl;
     v_cv_content := cvContent; v_anonymized_id := anonymizedId |}.

(** [POST /api/applications], after the rate limiter and the upload
    middleware.  The address is checked on its code units and the phone
    number is measured in code units, as [test] and [length] do.  A failing
    confirmation mail is caught and changes nothing. *)
Definition submit (w : World) (req : Request) (db : Db) : Answer * Db :=
  match given (f_jobKey (body req)), given (f_email (body req)), given (f_phone (body req)),
        file req with
  | Some jobKey, Some email, Some phone, Some f =>
      if negb (Validation.emailRegex_test email) then
        (Refused 400 "Invalid email format", db)
      else if (JS.string_length phone <? 10)%nat then
        (Refused 400 "Phone number must be at least 10 digits", db)
      else
        match filter (open_job jobKey) (job_descriptions db) with
        | [] => (Refused 404 "Job position not found or inactive", db)
        | _ :: _ =>
            match filter (same_applicant jobKey email) (applications db) with
            | _ :: _ => (Refused 409 "You have already applied for this position", db)
            | [] =>
                match insert w (insert_values w jobKey email phone (f_coverLetter (body req)) f)
                        (applications db) with
                | Some (returned, table) =>
                    (Created (r_id returned) (r_anonymized_id returned)
                       (r_submitted_at returned),
                     {| users := users db;
                        job_descriptions := job_descriptions db;
                        applications := table;
                        audit_logs := audit_logs db |})
                | None => (Refused 500 "Failed to submit application", db)
                end
            end
        end
  | _, _, _, _ =>
      (Refused 400 "Job position, email, phone, and CV file are required", db)
  end.

(** The row that the table definition gives to inserted values: the status
    defaults to pending and there is no score yet. *)
Definition stored_row (v : InsertValues) (returned : Returned) : Application :=
  {| id := r_id returned; app_job_key := Some (v_job_key v); email := v_email v;
     phone := v_phone v; cover_letter := v_cover_letter v; file_name := v_file_name v;
     cv_content := Some (v_cv_content v); ai_score := None; ai_explanation := None;
     status := Some "pending"; anonymized_id := v_anonymized_id v;
     submitted_at := r_submitted_at returned |}.

(** A database that, when it accepts an insert, holds the new row after the
    old ones and returns its anonymized id. *)
Definition stores_rows (w : World) : Prop :=
  forall v table returned table',
    insert w v table = Some (returned, table') ->
    table' = (table ++ [stored_row v returned])%list /\
    r_anonymized_id returned = v_anonymized_id v.

End Submission.

(** The request [req] with another address in its e-mail field. *)
Definition with_address (req : Submission.Request) (address : string) : Submission.Request :=
  {| Submission.body :=
       {| Submission.f_jobKey := Submission.f_jobKey (Submission.body req);
          Submission.f_email := Some address;
          Submission.f_phone := Submission.f_phone (Submission.body req);
          Submission.f_coverLetter := Submission.f_coverLetter (Submission.body req) |};
     Submission.file := Submission.file req |}.

Definition already_applied : Submission.Answer :=
  Submission.Refused 409 "You have already applied for this position".

(** A database that accepts every insert, numbering the rows as it goes. *)
Definition accepting_insert (v : Submission.InsertValues) (table : list Application)
  : option (Submission.Returned * list Application) :=
  let returned :=
    {| Submission.r_id := Z.of_nat (List.length table) + 1;
       Submission.r_anonymized_id := Submission.v_anonymized_id v;
       Submission.r_submitted_at := 1700000000 |} in
  Some (returned, (table ++ [Submission.stored_row v returned])%list).

Definition sample_world : Submission.World :=
  {| Submission.now_ms := 1234; Submission.pick := 0; Submission.roll := 4;
     Submission.now_iso := "2023-11-14T22:13:20.000Z";
     Submission.random36 := "0.k3j2h5g8a1";
     Submission.insert := accepting_insert |}.

Definition sample_submission (address : string) : Submission.Request :=
  {| Submission.body :=
       {| Submission.f_jobKey := Some "dev"; Submission.f_email := Some address;
          Submission.f_phone := Some "0123456789"; Submission.f_coverLetter := None |};
     Submission.file :=
       Some {| Submission.originalname := "cv.pdf"; Submission.size := 1024;
               Submission.mimetype := "application/pdf"; Submission.buffer := "" |} |}.

(** The same submission with a phone number of nine Arabic-Indic digits,
    which are eighteen bytes. *)
Definition nine_digit_submission : Submission.Request :=
  {| Submission.body :=
       {| Submission.f_jobKey := Some "dev"; Submission.f_email := Some "jane.doe@example.org";
          Submission.f_phone := Some "٠١٢٣٤٥٦٧٨"; Submission.f_coverLetter := None |};
     Submission.file :=
       Some {| Submission.originalname := "cv.pdf"; Submission.size := 1024;
               Submission.mimetype := "application/pdf"; Submission.buffer := "" |} |}.

Definition db_open_job : Db :=
  {| users := [7]; job_descriptions := [dev_job true]; applications := [];
     audit_logs := [] |}.

(* ------------------------------------------------------------------ *)
(** ** The decision endpoint *)

Module Decision.

(** [PUT /api/applications/:id/status], for a numeric [id]. *)
Record Request : Type := mkRequest {
  param_id : Z;
  b_status : option string;
  b_notes : option string;
  user_userId : Z;
  ip : string
}.

(** The audit row that a decision writes; its [details] are the notes and
    the anonymized id. *)
Record AuditRow : Type := mkAuditRow {
  a_user_id : Z;
  a_action : string;
  a_resource_type : string;
  a_resource_id : Z;
  a_notes : option string;
  a_anonymized_id : string;
  a_ip : string
}.

(** The tables, with the audit rows of decisions kept beside those of
    rankings.  The embedded row of [applications] carries neither
    [reviewed_at] nor [reviewed_by]: what the update writes to these two
    columns is outside the model, and no property speaks of them. *)
Record State : Type := mkState {
  db : Db;
  audit : list AuditRow
}.

Inductive Answer : Type :=
| Refused (status : Z) (error : string)
| Decided (message : string) (applicationId : Z) (status : string).

Definition quote : string := String (ascii_of_nat 34) EmptyString.

Definition bad_status : Answer :=
  Refused 400
    ("Status must be either " ++ quote ++ "accepted" ++ quote
       ++ " or " ++ quote ++ "rejected" ++ quote).

(** [['accepted', 'rejected'].includes(status)]. *)
Definition allowed (status : option string) : option string :=
  match status with
  | Some s => if String.eqb s "accepted" || String.eqb s "rejected" then Some s else None
  | None => None
  end.

(** [SELECT a.*, j.title as job_title FROM applications a JOIN
    job_descriptions j ON a.job_key = j.job_key WHERE a.id = $1]. *)
Definition joined (target : Z) (d : Db) : list (Application * string) :=
  flat_map
    (fun a =>
       map (fun j => (a, job_title j))
         (filter (fun j => opt_string_is (app_job_key a) (job_key j)) (job_descriptions d)))
    (filter (fun a => id a =? target) (applications d)).

Definition set_status (new_status : string) (target : Z) (a : Application) : Application :=
  if id a =? target then
    {| id := id a; app_job_key := app_job_key a; email := email a; phone := phone a;
       cover_letter := cover_letter a; file_name := file_name a;
       cv_content := cv_content a;
       ai_score := ai_score a; ai_explanation := ai_explanation a;
       status := Some new_status; anonymized_id := anonymized_id a;
       submitted_at := submitted_at a |}
  else a.

(** [UPDATE applications SET status = $1, reviewed_at = CURRENT_TIMESTAMP,
    reviewed_by = $2 WHERE id = $3], on the columns of the embedded row: of
    these the statement rewrites the status only.  As with every table, the
    place of a rewritten row in the list says nothing about where a scan
    returns it. *)
Definition update_status (new_status : string) (target : Z) (d : Db) : Db :=
  {| users := users d;
     job_descriptions := job_descriptions d;
     applications := map (set_status new_status target) (applications d);
     audit_logs := audit_logs d |}.

(** The endpoint; [mail_sent] tells whether [sendStatusEmail] gets its mail
    through or throws.  The database is taken to accept the update and the
    audit row, which both name the caller. *)
Definition decide (mail_sent : bool) (req : Request) (st : State) : Answer * State :=
  match allowed (b_status req) with
  | None => (bad_status, st)
  | Some new_status =>
      match joined (param_id req) (db st) with
      | [] => (Refused 404 "Application not found", st)
      | (application, _) :: _ =>
          let updated := update_status new_status (param_id req) (db st) in
          if mail_sent then
            (Decided ("Application " ++ new_status ++ " successfully") (param_id req) new_status,
             {| db := updated;
                audit := (audit st ++
                  [{| a_user_id := user_userId req;
                      a_action := Submission.toUpperCase new_status;
                      a_resource_type := "application";
                      a_resource_id := param_id req;
                      a_notes := b_notes req;
                      a_anonymized_id := anonymized_id application;
                      a_ip := ip req |}])%list |})
          else
            (Refused 500 "Failed to update application status",
             {| db := updated; audit := audit st |})
      end
  end.

Definition status_code (answer : Answer) : Z :=
  match answer with
  | Refused code _ => code
  | Decided _ _ _ => 200
  end.

End Decision.

(** Row [a'] holds what row [a] holds in every column but the status. *)
Definition same_but_status (a a' : Application) : Prop :=
  id a' = id a /\ app_job_key a' = app_job_key a /\ email a' = email a /\
  phone a' = phone a /\ cover_letter a' = cover_letter a /\
  file_name a' = file_name a /\ cv_content a' = cv_content a /\
  ai_score a' = ai_score a /\ ai_explanation a' = ai_explanation a /\
  anonymized_id a' = anonymized_id a /\ submitted_at a' = submitted_at a.

Definition reviewer_decision (target : Z) (new_status : string) : Decision.Request :=
  {| Decision.param_id := target; Decision.b_status := Some new_status;
     Decision.b_notes := None; Decision.user_userId := 7; Decision.ip := "10.0.0.1" |}.

Definition state_tie : Decision.State := {| Decision.db := db_tie; Decision.audit := [] |}.

(* ================================================================== *)
(** * Properties *)

(** ** Strings *)

Section StringFacts.

Lemma prefix_iff (n s : string) :
  String.prefix n s = true <-> exists post, s = n ++ post.
Proof.
  revert s; induction n as [|c n IH]; intros s; simpl.
  - split; [intros _; now exists s | intros _; now destruct s].
  - destruct s as [|d s]; simpl.
    + split; [discriminate | intros [post H]; discriminate].
    + destruct (ascii_dec c d) as [->|Hne].
      * rewrite IH. split; intros [post H]; exists post.
        -- now rewrite H.
        -- now injection H.
      * split; [discriminate | intros [post H]; injection H; congruence].
Qed.

(** [includes] is the substring relation. *)
Lemma includes_iff (s n : string) :
  JS.includes s n = true <-> exists pre post, s = pre ++ n ++ post.
Proof.
  induction s as [|c s IH].
  - change (JS.includes "" n) with (String.prefix n "" || false).
    rewrite orb_false_r, prefix_iff. split.
    + intros [post H]. now exists "", post.
    + intros [pre [post H]]. destruct pre; [now exists post | discriminate].
  - change (JS.includes (String c s) n)
      with (String.prefix n (String c s) || JS.includes s n).
    rewrite orb_true_iff, prefix_iff, IH. split.
    + intros [[post H] | [pre [post H]]].
      * now exists "", post.
      * exists (String c pre), post. simpl. now rewrite H.
    + intros [pre [post H]]. destruct pre as [|d pre]; simpl in H.
      * left. now exists post.
      * right. injection H as _ H. now exists pre, post.
Qed.

Lemma digit_run_app (ds rest : string) :
  (forall c, In c (list_ascii_of_string ds) -> JS.is_digit c = true) ->
  JS.digit_run rest = "" ->
  JS.digit_run (ds ++ rest) = ds.
Proof.
  induction ds as [|c ds IH]; simpl; intros Hd Hr; [assumption|].
  rewrite (Hd c (or_introl eq_refl)). f_equal. apply IH; auto.
Qed.

Lemma uint_digits (d : Decimal.uint) :
  forall c, In c (list_ascii_of_string (NilEmpty.string_of_uint d)) -> JS.is_digit c = true.
Proof.
  induction d; simpl; intros c' H; try contradiction;
    (destruct H as [<-|H]; [reflexivity | now apply IHd]).
Qed.

Lemma parse_uint (d : Decimal.uint) :
  forall acc : nat,
    JS.parse_digits (Z.of_nat acc) (NilEmpty.string_of_uint d)
    = Z.of_nat (Nat.of_uint_acc d acc).
Proof.
  induction d; intros acc;
    cbn [NilEmpty.string_of_uint JS.parse_digits Nat.of_uint_acc]; try reflexivity;
    rewrite <- IHd; f_equal; rewrite Nat.tail_mul_spec;
    match goal with
    | |- context [JS.digit_value ?c] =>
        let v := eval vm_compute in (JS.digit_value c) in
        change (JS.digit_value c) with v
    end; lia.
Qed.

Lemma show_nat_digits (n : nat) :
  forall c, In c (list_ascii_of_string (JS.show_nat n)) -> JS.is_digit c = true.
Proof.
  unfold JS.show_nat, NilZero.string_of_uint.
  destruct (Nat.to_uint n) eqn:E; try (rewrite <- E; apply uint_digits).
  simpl. intros c [<-|[]]. reflexivity.
Qed.

Lemma show_nat_nonempty (n : nat) : JS.show_nat n <> "".
Proof.
  unfold JS.show_nat, NilZero.string_of_uint.
  destruct (Nat.to_uint n); simpl; discriminate.
Qed.

(** Reading back what [show_nat] prints. *)
Lemma parseInt_show_nat (n : nat) : JS.parseInt (JS.show_nat n) = Z.of_nat n.
Proof.
  unfold JS.parseInt, JS.show_nat, NilZero.string_of_uint.
  rewrite <- (DecimalNat.Unsigned.of_to n) at 2.
  destruct (Nat.to_uint n) eqn:E; try (rewrite <- E; apply (parse_uint _ 0)).
  reflexivity.
Qed.

Lemma match_digits_show_nat (n : nat) (rest : string) :
  JS.digit_run rest = "" ->
  JS.match_digits (JS.show_nat n ++ rest) = Some (JS.show_nat n).
Proof.
  intros Hr.
  pose proof (show_nat_nonempty n) as Hne.
  pose proof (show_nat_digits n) as Hd.
  pose proof (digit_run_app (JS.show_nat n) rest Hd Hr) as Hrun.
  destruct (JS.show_nat n) as [|c t]; [congruence|].
  simpl in *. rewrite (Hd c (or_introl eq_refl)) in *. now rewrite Hrun.
Qed.

End StringFacts.

(* ------------------------------------------------------------------ *)
(** ** The evaluators *)

Section CaseFolding.

Lemma all_ascii_complete (c : ascii) : In c all_ascii.
Proof.
  unfold all_ascii. rewrite <- (ascii_nat_embedding c). apply in_map.
  apply in_seq. pose proof (nat_ascii_bounded c). lia.
Qed.

Lemma lower_char_pairs :
  forallb (fun c => forallb (fun d =>
      Bool.eqb (Ascii.eqb (JS.lower_char c) (JS.lower_char d)) (same_letter c d))
    all_ascii) all_ascii = true.
Proof. vm_compute. reflexivity. Qed.

Lemma lower_char_same_letter (c d : ascii) :
  JS.lower_char c = JS.lower_char d <-> same_letter c d = true.
Proof.
  pose proof lower_char_pairs as H. rewrite forallb_forall in H.
  specialize (H c (all_ascii_complete c)). rewrite forallb_forall in H.
  specialize (H d (all_ascii_complete d)). apply Bool.eqb_prop in H.
  rewrite <- H. symmetry. apply Ascii.eqb_eq.
Qed.

Lemma toLowerCase_app (s t : string) :
  JS.toLowerCase (s ++ t) = JS.toLowerCase s ++ JS.toLowerCase t.
Proof. induction s as [|c s IH]; simpl; congruence. Qed.

Lemma toLowerCase_split (x y : string) :
  forall s, JS.toLowerCase s = x ++ y ->
    exists a b, s = a ++ b /\ JS.toLowerCase a = x /\ JS.toLowerCase b = y.
Proof.
  induction x as [|c x IH]; intros s H.
  - exists "", s. auto.
  - destruct s as [|d s]; [discriminate|]. simpl in H. injection H as Hc Hs.
    destruct (IH s Hs) as (a & b & -> & Ha & Hb).
    exists (String d a), b. simpl. repeat split; congruence.
Qed.

Lemma toLowerCase_equal (s t : string) :
  JS.toLowerCase s = JS.toLowerCase t <-> equal_ignoring_case s t = true.
Proof.
  revert t. induction s as [|c s IH]; intros [|d t]; simpl;
    try (split; [discriminate | discriminate]); [tauto|].
  rewrite andb_true_iff, <- IH, <- lower_char_same_letter. split.
  - intros H. injection H as H1 H2. auto.
  - intros [H1 H2]. congruence.
Qed.

(** Matching a requirement, without reference to the case mapping. *)
Lemma includes_ignoring_case (app req : string) :
  JS.includes (JS.toLowerCase app) (JS.toLowerCase req) = true <->
  occurs_ignoring_case req app.
Proof.
  unfold occurs_ignoring_case. rewrite includes_iff. split.
  - intros (pre & post & H).
    apply toLowerCase_split in H. destruct H as (a & rest & -> & Ha & Hr).
    apply toLowerCase_split in Hr. destruct Hr as (m & b & -> & Hm & Hb).
    exists a, m, b. split; [reflexivity|]. now apply toLowerCase_equal.
  - intros (pre & m & post & -> & Hm). apply toLowerCase_equal in Hm.
    exists (JS.toLowerCase pre), (JS.toLowerCase post).
    now rewrite !toLowerCase_app, Hm.
Qed.

Lemma code_units_ascii (s : string) :
  (forall c, In c (list_ascii_of_string s) -> (nat_of_ascii c <? 128)%nat = true) ->
  JS.code_units s = map JS.byte (list_ascii_of_string s).
Proof.
  induction s as [|c s IH]; intros H; [reflexivity|].
  cbn [JS.code_units list_ascii_of_string map].
  assert (Hc : (JS.byte c <? 128)%N = true).
  { pose proof (H c (or_introl eq_refl)) as Hc. revert Hc.
    destruct c as [[] [] [] [] [] [] [] []]; vm_compute; auto. }
  rewrite Hc. f_equal. apply IH. intros c' Hin. apply H. now right.
Qed.

Lemma length_list_ascii (s : string) : List.length (list_ascii_of_string s) = String.length s.
Proof. induction s; simpl; congruence. Qed.

Lemma string_length_ascii (s : string) :
  (forall c, In c (list_ascii_of_string s) -> (nat_of_ascii c <? 128)%nat = true) ->
  JS.string_length s = String.length s.
Proof.
  intros H. unfold JS.string_length. rewrite (code_units_ascii s H), length_map.
  apply length_list_ascii.
Qed.

(** One, two, three and four bytes: a letter, an accented letter, the euro
    sign and a pictograph. *)
Lemma code_units_samples :
  JS.code_units "aé€😀" = [97; 233; 8364; 55357; 56832]%N.
Proof. reflexivity. Qed.

Lemma ascii_text_chars (s : string) :
  ascii_text s <-> forall c, In c (list_ascii_of_string s) -> (nat_of_ascii c <? 128)%nat = true.
Proof. unfold ascii_text, is_ascii_text. apply forallb_forall. Qed.

Lemma ascii_text_length (s : string) : ascii_text s -> JS.string_length s = String.length s.
Proof. intros H. apply string_length_ascii. now apply ascii_text_chars. Qed.

End CaseFolding.

Section Evaluators.

Lemma match_digits_skip (pre s : string) :
  no_digit pre -> JS.match_digits (pre ++ s) = JS.match_digits s.
Proof.
  induction pre as [|c pre IH]; intros H; [reflexivity|].
  cbn [append JS.match_digits].
  rewrite (H c (or_introl eq_refl)). apply IH.
  intros d Hd. apply H. now right.
Qed.

Lemma match_digits_none (t : string) : no_digit t -> JS.match_digits t = None.
Proof.
  induction t as [|c t IH]; intros H; [reflexivity|].
  cbn [JS.match_digits]. rewrite (H c (or_introl eq_refl)). apply IH.
  intros d Hd. apply H. now right.
Qed.

Lemma evaluateExperience_tier (cv : CvContent) (job : JobDescription) (y : Z) :
  states_years (cv_experience cv) y -> evaluateExperience cv job = tier y.
Proof.
  unfold evaluateExperience, tier. inversion 1 as [E | t Ht E | pre n rest Hp Hr E]; subst.
  - reflexivity.
  - now rewrite match_digits_none.
  - now rewrite match_digits_skip, match_digits_show_nat, parseInt_show_nat.
Qed.

Lemma evaluateExperience_cases (cv : CvContent) (job : JobDescription) :
  evaluateExperience cv job = 25 \/ evaluateExperience cv job = 20 \/
  evaluateExperience cv job = 15 \/ evaluateExperience cv job = 10.
Proof.
  unfold evaluateExperience.
  repeat match goal with |- context [if ?b then _ else _] => destruct b end; auto.
Qed.

Lemma education_score_cases (cv : CvContent) :
  education_score cv = 15 \/ education_score cv = 10 \/ education_score cv = 0.
Proof.
  unfold education_score.
  repeat match goal with |- context [if ?b then _ else _] => destruct b end; auto.
Qed.

Lemma skill_matches_iff (applicantSkills : list string) (req : string) :
  skill_matches applicantSkills req = true <->
  exists app pre post,
    In app applicantSkills /\ JS.toLowerCase app = pre ++ JS.toLowerCase req ++ post.
Proof.
  unfold skill_matches. rewrite existsb_exists. split.
  - intros [app [Hin H]]. apply includes_iff in H. destruct H as [pre [post H]].
    now exists app, pre, post.
  - intros [app [pre [post [Hin H]]]]. exists app. split; [assumption|].
    apply includes_iff. now exists pre, post.
Qed.

Lemma skills_line_warning (matched : list string) :
  skills_line matched = no_match_warning <-> matched = [].
Proof.
  unfold skills_line, no_match_warning. destruct matched as [|m ms]; simpl.
  - tauto.
  - split; discriminate.
Qed.

Lemma other_lines_not_warning (cv : CvContent) (sc : Z) (achievements : list string) :
  experience_line cv sc <> no_match_warning /\
  education_line cv <> no_match_warning /\
  achievements_line achievements <> no_match_warning.
Proof.
  unfold experience_line, education_line, achievements_line, no_match_warning.
  repeat split;
    repeat match goal with |- context [if ?b then _ else _] => destruct b end;
    simpl; discriminate.
Qed.

End Evaluators.

(** C7.  The experience sub-score follows the tier table on the years the
    profile states: at least 6 years give 25, at least 4 give 20, at least 2
    give 15, anything less gives 10, and a missing experience counts as 0
    years and gives 10. *)
Theorem experience_tiers (cv : CvContent) (job : JobDescription) (y : Z) :
  states_years (cv_experience cv) y ->
  (6 <= y -> evaluateExperience cv job = 25) /\
  (4 <= y < 6 -> evaluateExperience cv job = 20) /\
  (2 <= y < 4 -> evaluateExperience cv job = 15) /\
  (y < 2 -> evaluateExperience cv job = 10).
Proof.
  intros H. rewrite (evaluateExperience_tier cv job H). unfold tier.
  repeat split; intros Hy;
    repeat match goal with |- context [?a <=? ?b] => destruct (Z.leb_spec a b) end;
    lia.
Qed.

Lemma states_years_plain (n : nat) :
  states_years (Some ("" ++ JS.show_nat n ++ " years")) (Z.of_nat n).
Proof. apply years_written; [intros c [] | reflexivity]. Qed.

(** The sample points 7, 5, 3, 0 and a missing experience. *)
Lemma experience_tiers_witness :
  evaluateExperience (cv_with_experience (Some "7 years")) (any_job []) = 25 /\
  evaluateExperience (cv_with_experience (Some "5 years")) (any_job []) = 20 /\
  evaluateExperience (cv_with_experience (Some "3 years")) (any_job []) = 15 /\
  evaluateExperience (cv_with_experience (Some "0 years")) (any_job []) = 10 /\
  evaluateExperience (cv_with_experience None) (any_job []) = 10.
Proof.
  refine (conj _ (conj _ (conj _ (conj _ _)))).
  - apply (experience_tiers (cv_with_experience (Some "7 years")) (any_job [])
             (states_years_plain 7)); lia.
  - apply (experience_tiers (cv_with_experience (Some "5 years")) (any_job [])
             (states_years_plain 5)); lia.
  - apply (experience_tiers (cv_with_experience (Some "3 years")) (any_job [])
             (states_years_plain 3)); lia.
  - apply (experience_tiers (cv_with_experience (Some "0 years")) (any_job [])
             (states_years_plain 0)); lia.
  - apply (experience_tiers (cv_with_experience None) (any_job []) years_missing); lia.
Defined.

(** C6.  For skills and requirements written in ASCII, a required skill is
    matched exactly when it occurs in some candidate skill as a substring up
    to the case of its letters; the matched skills are the requirements that
    are matched, in their order; the skills sub-score is the smaller of 40
    and 8 points per matched requirement; the warning line appears once when
    nothing matched and not at all otherwise.  Requirement SQL is matched by
    candidate skill postgresql. *)
Theorem skills_dimension (cv : CvContent) (job : JobDescription) :
  Forall ascii_text (requirements job) ->
  Forall ascii_text (skills_of cv) ->
  let st := analyze_locals cv job in
  (forall req,
      In req (matchedSkills st) <->
      In req (requirements job) /\
      exists app, In app (skills_of cv) /\ occurs_ignoring_case req app) /\
  (forall req,
      ascii_text req ->
      (skill_matches (skills_of cv) req = true <->
       exists app, In app (skills_of cv) /\ occurs_ignoring_case req app)) /\
  matchedSkills st = filter (skill_matches (skills_of cv)) (requirements job) /\
  dim_skills (dimensionScores st) = Z.min 40 (Z.of_nat (List.length (matchedSkills st)) * 8) /\
  count_occ string_dec (explanationPoints st) no_match_warning
    = (if (List.length (matchedSkills st) =? 0)%nat then 1%nat else 0%nat) /\
  skill_matches ["postgresql"; "docker"; "git"] "SQL" = true /\
  Z.min 40 (Z.of_nat (List.length (filter (skill_matches ["postgresql"; "docker"; "git"])
                                     ["SQL"; "Docker"])) * 8) = 16.
Proof.
  intros _ _. cbv zeta.
  assert (Hm : forall req,
             skill_matches (skills_of cv) req = true <->
             exists app, In app (skills_of cv) /\ occurs_ignoring_case req app).
  { intros req. unfold skill_matches. rewrite existsb_exists.
    split; intros [app [Hin H]]; exists app; (split; [assumption|]);
      now apply includes_ignoring_case. }
  refine (conj _ (conj (fun req _ => Hm req)
            (conj eq_refl (conj eq_refl (conj _ (conj eq_refl eq_refl)))))).
  - intros req. unfold analyze_locals; cbn [matchedSkills]. fold (skills_of cv).
    now rewrite filter_In, Hm.
  - unfold analyze_locals; cbn [matchedSkills explanationPoints app]. fold (skills_of cv).
    set (matched := filter _ _).
    destruct (other_lines_not_warning cv (evaluateExperience cv job)
                (match cv_achievements cv with Some l => l | None => [] end))
      as [Hx [He Ha]].
    rewrite count_occ_cons_neq by assumption.
    destruct matched as [|m ms] eqn:E.
    + rewrite count_occ_cons_eq by reflexivity.
      rewrite !count_occ_cons_neq by assumption. reflexivity.
    + rewrite count_occ_cons_neq by (intros H; apply skills_line_warning in H; discriminate).
      rewrite !count_occ_cons_neq by assumption. reflexivity.
Qed.

Lemma sample_skills_ascii :
  Forall ascii_text (requirements (dev_job true)) /\
  Forall ascii_text (skills_of (extracted_cv redacted)).
Proof. split; repeat constructor. Qed.

(** The sample profile against the sample job: SQL is matched by sql, and
    the two matches give 16 points. *)
Lemma skills_dimension_witness :
  Forall ascii_text (requirements (dev_job true)) /\
  Forall ascii_text (skills_of (extracted_cv redacted)) /\
  In "SQL" (matchedSkills (analyze_locals (extracted_cv redacted) (dev_job true))) /\
  dim_skills (dimensionScores (analyze_locals (extracted_cv redacted) (dev_job true))) = 16.
Proof.
  destruct sample_skills_ascii as [H1 H2].
  pose proof (@skills_dimension (extracted_cv redacted) (dev_job true) H1 H2) as H.
  cbv zeta in H. destruct H as (Hin & _ & _ & Hd & _).
  refine (conj H1 (conj H2 (conj _ _))).
  - apply Hin. split; [right; now left|].
    exists "sql". split; [right; right; now left|].
    exists "", "sql", "". split; reflexivity.
  - rewrite Hd. reflexivity.
Defined.

(** C8.  Every dimension sub-score lies between 0 and the weight of its
    dimension (25, 40, 15, 20), the total is the sum of the four sub-scores,
    the total lies between 0 and 100, and it is the score that
    [analyzeApplication] returns. *)
Theorem score_invariants (cv : CvContent) (job : JobDescription) :
  let st := analyze_locals cv job in
  let d := dimensionScores st in
  0 <= dim_experience d <= 25 /\
  0 <= dim_skills d <= 40 /\
  0 <= dim_education d <= 15 /\
  0 <= dim_achievements d <= 20 /\
  totalScore st = dim_experience d + dim_skills d + dim_education d + dim_achievements d /\
  0 <= totalScore st <= 100 /\
  analyzeApplication (Some cv) job
    = Ok {| score := totalScore st; explanation := JS.join newline (explanationPoints st) |}.
Proof.
  cbv zeta. unfold analyzeApplication, analyze_locals.
  cbn [totalScore dimensionScores dim_experience dim_skills dim_education dim_achievements].
  pose proof (evaluateExperience_cases cv job) as Hx.
  pose proof (education_score_cases cv) as He.
  repeat split; try lia.
Qed.

(** C10.  The experience sub-score is at least 10 for every profile, so the
    score that [analyzeApplication] returns is at least 10 and never 0; a
    profile with no skills, experience, education or achievements scores
    exactly 10. *)
Theorem total_at_least_ten (cv : CvContent) (job : JobDescription) :
  10 <= evaluateExperience cv job /\
  match analyzeApplication (Some cv) job with
  | Ok a => 10 <= score a /\ score a <> 0
  | Throw _ => False
  end /\
  match analyzeApplication (Some (cv_with_experience None)) job with
  | Ok a => score a = 10
  | Throw _ => False
  end.
Proof.
  unfold analyzeApplication, analyze_locals. cbn [score totalScore].
  pose proof (evaluateExperience_cases cv job) as Hx.
  pose proof (education_score_cases cv) as He.
  refine (conj _ (conj _ _)); try lia.
  cbn [cv_with_experience cv_skills cv_achievements List.length].
  replace (filter (skill_matches []) (requirements job)) with (@nil string)
    by (induction (requirements job); simpl; auto).
  reflexivity.
Qed.

(** C5.  With requirements JavaScript and SQL, a candidate with skills
    javascript, react and sql, 6 years of experience, a bachelor's degree and
    three achievements scores 25 + 16 + 10 + 12 = 63, and the explanation
    names both matched skills. *)
Theorem end_to_end_63 (name mail extracted : option string) (a1 a2 a3 : string)
    (jid : Z) (key title descr : string) (active : bool) :
  let cv := {| cv_name := name; cv_email := mail;
               cv_skills := Some ["javascript"; "react"; "sql"];
               cv_experience := Some "6 years";
               cv_education := Some "bachelor";
               cv_achievements := Some [a1; a2; a3];
               cv_extractedAt := extracted |} in
  let job := {| job_id := jid; job_key := key; job_title := title; job_description := descr;
                requirements := ["JavaScript"; "SQL"]; is_active := active |} in
  dimensionScores (analyze_locals cv job)
    = {| dim_experience := 25; dim_skills := 16; dim_education := 10; dim_achievements := 12 |} /\
  matchedSkills (analyze_locals cv job) = ["JavaScript"; "SQL"] /\
  analyzeApplication (Some cv) job
    = Ok {| score := 63;
            explanation :=
              "✓ Excellent relevant experience: 6 years with strong background in required areas"
              ++ newline ++ "✓ 2 matching skill(s): JavaScript, SQL"
              ++ newline ++ "✓ Holds a Bachelor's degree"
              ++ newline ++ "✓ 3 notable achievement(s)" |}.
Proof.
  cbv zeta. refine (conj eq_refl (conj eq_refl eq_refl)).
Qed.

(* ------------------------------------------------------------------ *)
(** ** Sorting by a descending integer key *)

Section SortByKey.
Variable A : Type.
Variable key : A -> Z.
Variable cmp : A -> A -> Z.
Hypothesis cmp_key : forall a b, cmp a b = key b - key a.

Lemma insert_sorted_perm (x : A) (l : list A) :
  Permutation (JS.insert_sorted cmp x l) (x :: l).
Proof.
  induction l as [|y t IH]; simpl; [reflexivity|].
  destruct (cmp x y <=? 0); [reflexivity|].
  rewrite IH. apply perm_swap.
Qed.

Lemma sort_perm (l : list A) : Permutation (JS.sort cmp l) l.
Proof.
  induction l as [|x t IH]; simpl; [reflexivity|].
  rewrite insert_sorted_perm. now constructor.
Qed.

Lemma insert_sorted_sorted (x : A) (l : list A) :
  StronglySorted (key_desc key) l -> StronglySorted (key_desc key) (JS.insert_sorted cmp x l).
Proof.
  induction 1 as [|y t Hs IH Hall]; simpl.
  - repeat constructor.
  - rewrite cmp_key. destruct (Z.leb_spec (key y - key x) 0) as [Hle|Hgt].
    + constructor; [now constructor|].
      constructor; [unfold key_desc; lia|].
      eapply Forall_impl; [|exact Hall]. unfold key_desc. intros; lia.
    + constructor; [assumption|].
      eapply Permutation_Forall; [symmetry; apply insert_sorted_perm|].
      constructor; [unfold key_desc; lia | assumption].
Qed.

Lemma sort_sorted (l : list A) : StronglySorted (key_desc key) (JS.sort cmp l).
Proof.
  induction l as [|x t IH]; simpl; [constructor | now apply insert_sorted_sorted].
Qed.

(** Elements with the same key are not reordered. *)
Lemma insert_sorted_stable (k : Z) (x : A) (l : list A) :
  filter (has_key key k) (JS.insert_sorted cmp x l) = filter (has_key key k) (x :: l).
Proof.
  induction l as [|y t IH]; [reflexivity|].
  cbn [JS.insert_sorted]. rewrite cmp_key.
  destruct (Z.leb_spec (key y - key x) 0) as [Hle|Hgt]; [reflexivity|].
  cbn [filter] in *. rewrite IH. unfold has_key.
  destruct (Z.eqb_spec (key x) k), (Z.eqb_spec (key y) k); try reflexivity. lia.
Qed.

Lemma sort_stable (k : Z) (l : list A) :
  filter (has_key key k) (JS.sort cmp l) = filter (has_key key k) l.
Proof.
  induction l as [|x t IH]; [reflexivity|].
  cbn [JS.sort fold_right]. fold (JS.sort cmp t).
  rewrite insert_sorted_stable. cbn [filter]. now rewrite IH.
Qed.

(** A second key that is ascending along the input is ascending along
    every group of equal first keys in the output. *)
Lemma sort_ties_follow_input (t : A -> Z) (k : Z) (l : list A) :
  StronglySorted (fun a b => t a <= t b) l ->
  StronglySorted (fun a b => t a <= t b) (filter (has_key key k) (JS.sort cmp l)).
Proof.
  rewrite sort_stable. induction 1 as [|x u Hs IH Hall]; simpl; [constructor|].
  destruct (has_key key k x); [|assumption].
  constructor; [assumption|].
  rewrite Forall_forall in *. intros y Hy. apply Hall.
  apply filter_In in Hy. tauto.
Qed.

Lemma has_own_key (x : A) : has_key key (key x) x = true.
Proof. unfold has_key. apply Z.eqb_refl. Qed.

(** Two descending lists that hold the same elements in the same order key
    by key are the same list: a stable sort has no choice. *)
Lemma sorted_groups_unique (l1 : list A) :
  forall l2,
    StronglySorted (key_desc key) l1 -> StronglySorted (key_desc key) l2 ->
    (forall k, filter (has_key key k) l1 = filter (has_key key k) l2) ->
    l1 = l2.
Proof.
  induction l1 as [|x t1 IH]; intros l2 H1 H2 Hf.
  - destruct l2 as [|y t2]; [reflexivity|].
    specialize (Hf (key y)). cbn [filter] in Hf.
    rewrite has_own_key in Hf. discriminate.
  - destruct l2 as [|y t2].
    { specialize (Hf (key x)). cbn [filter] in Hf.
      rewrite has_own_key in Hf. discriminate. }
    inversion H1 as [|x' t1' Hs1 Hall1]; subst.
    inversion H2 as [|y' t2' Hs2 Hall2]; subst.
    rewrite Forall_forall in Hall1, Hall2.
    assert (Hxy : key x = key y).
    { assert (Hx : In x (filter (has_key key (key x)) (y :: t2))).
      { rewrite <- Hf. cbn [filter]. rewrite has_own_key. now left. }
      assert (Hy : In y (filter (has_key key (key y)) (x :: t1))).
      { rewrite Hf. cbn [filter]. rewrite has_own_key. now left. }
      apply filter_In in Hx. apply filter_In in Hy.
      destruct Hx as [[Hx|Hx] _], Hy as [[Hy|Hy] _]; try congruence.
      apply Hall1 in Hy. apply Hall2 in Hx. unfold key_desc in *. lia. }
    assert (Hhead := Hf (key x)). cbn [filter] in Hhead.
    rewrite has_own_key in Hhead. rewrite Hxy in Hhead at 2.
    rewrite has_own_key in Hhead. injection Hhead as Hx Ht. subst y.
    f_equal. apply IH; auto. intros k. specialize (Hf k). cbn [filter] in Hf.
    destruct (has_key key k x); [now injection Hf | assumption].
Qed.

(** Whatever stable algorithm the engine runs, it returns [JS.sort]. *)
Lemma stable_sort_is_sort (l sorted : list A) :
  StronglySorted (key_desc key) sorted ->
  (forall k, filter (has_key key k) sorted = filter (has_key key k) l) ->
  sorted = JS.sort cmp l.
Proof.
  intros Hs Hf. apply sorted_groups_unique; [assumption | apply sort_sorted |].
  intros k. now rewrite sort_stable.
Qed.

End SortByKey.

Lemma by_score_desc_key (a b : RankedApplication) :
  by_score_desc a b = ra_score b - ra_score a.
Proof. reflexivity. Qed.

(* ------------------------------------------------------------------ *)
(** ** The scoring loop *)

Section RankLoop.
Variable job : JobDescription.

Lemma store_nil (db : Db) : store [] db = db.
Proof. destruct db; unfold store; simpl. now rewrite map_id. Qed.

Lemma store_cons (p : Application * Analysis) (evals : list (Application * Analysis)) (db : Db) :
  store evals (snd (update_score (score (snd p)) (explanation (snd p)) (id (fst p)) db))
  = store (p :: evals) db.
Proof. unfold store; simpl. now rewrite map_map. Qed.

(** The loop runs through a prefix of evaluated applications, storing each
    score and collecting each entry. *)
Lemma rank_loop_prefix (evals : list (Application * Analysis)) (rest : list Application) :
  Forall (evaluated job) evals ->
  forall acc db,
    rank_loop (map fst evals ++ rest) job acc db
    = rank_loop rest job (acc ++ map entry_of evals)%list (store evals db).
Proof.
  induction 1 as [|p evals Hp _ IH]; intros acc db.
  - simpl. now rewrite app_nil_r, store_nil.
  - cbn [map app rank_loop]. unfold bind at 1, lift. rewrite Hp.
    unfold bind at 1. cbn [update_score].
    rewrite IH. rewrite <- app_assoc. cbn [app map].
    now rewrite <- store_cons.
Qed.

Lemma rank_loop_throw (bad : Application) (post : list Application) (e : JsError) :
  analyzeApplication (cv_content bad) job = Throw e ->
  forall acc db, rank_loop (bad :: post) job acc db = (Throw e, db).
Proof. intros H acc db. cbn [rank_loop]. unfold bind, lift. now rewrite H. Qed.

(** Every batch splits at its first failing application, if any. *)
Lemma first_failure (apps : list Application) :
  exists evals rest,
    apps = (map fst evals ++ rest)%list /\ Forall (evaluated job) evals /\
    (rest = [] \/
     exists bad post e, rest = bad :: post /\ analyzeApplication (cv_content bad) job = Throw e).
Proof.
  induction apps as [|a apps [evals [rest [E [Hev Hrest]]]]].
  - exists [], []. repeat split; auto.
  - destruct (analyzeApplication (cv_content a) job) as [an|e] eqn:Ha.
    + exists ((a, an) :: evals), rest. subst apps. repeat split; auto.
    + exists [], (a :: apps). repeat split; auto.
      right. now exists a, apps, e.
Qed.

Lemma store_one_fields (p : Application * Analysis) (r : Application) :
  id (store_one p r) = id r /\ app_job_key (store_one p r) = app_job_key r /\
  status (store_one p r) = status r /\ cv_content (store_one p r) = cv_content r /\
  anonymized_id (store_one p r) = anonymized_id r /\
  submitted_at (store_one p r) = submitted_at r /\
  (is_null (ai_score r) = false -> is_null (ai_score (store_one p r)) = false).
Proof. unfold store_one, set_score. destruct (id r =? id (fst p)); simpl; tauto. Qed.

Lemma store_row_fields (evals : list (Application * Analysis)) :
  forall r,
    id (store_row evals r) = id r /\ app_job_key (store_row evals r) = app_job_key r /\
    status (store_row evals r) = status r /\ cv_content (store_row evals r) = cv_content r /\
    anonymized_id (store_row evals r) = anonymized_id r /\
    submitted_at (store_row evals r) = submitted_at r /\
    (is_null (ai_score r) = false -> is_null (ai_score (store_row evals r)) = false).
Proof.
  induction evals as [|p evals IH]; intros r; simpl; [tauto|].
  destruct (IH (store_one p r)) as (H1 & H2 & H3 & H4 & H5 & H6 & H7).
  destruct (store_one_fields p r) as (K1 & K2 & K3 & K4 & K5 & K6 & K7).
  repeat split; try congruence. auto.
Qed.

Lemma store_row_untouched (evals : list (Application * Analysis)) :
  forall r, ~ In (id r) (map eval_id evals) -> store_row evals r = r.
Proof.
  induction evals as [|p evals IH]; intros r Hn; simpl; [reflexivity|].
  assert (E : store_one p r = r).
  { unfold store_one, set_score. destruct (Z.eqb_spec (id r) (id (fst p))); [|reflexivity].
    exfalso. apply Hn. left. unfold eval_id. congruence. }
  rewrite E. apply IH. intros H. apply Hn. now right.
Qed.

Lemma store_row_scored (evals : list (Application * Analysis)) :
  forall r, In (id r) (map eval_id evals) -> is_null (ai_score (store_row evals r)) = false.
Proof.
  induction evals as [|p evals IH]; intros r Hin; simpl in *; [contradiction|].
  destruct (in_dec Z.eq_dec (id r) (map eval_id evals)) as [Hr|Hr].
  - apply IH. now rewrite (proj1 (store_one_fields p r)).
  - destruct Hin as [E|Hin]; [|contradiction].
    apply store_row_fields. unfold store_one, set_score, eval_id in *.
    rewrite E, Z.eqb_refl. reflexivity.
Qed.

Lemma store_row_exact (evals : list (Application * Analysis)) :
  NoDup (map eval_id evals) ->
  forall p r, In p evals -> id r = id (fst p) -> store_row evals r = store_one p r.
Proof.
  induction evals as [|q evals IH]; intros Hnd p r Hin E; [contradiction|].
  inversion Hnd as [|x xs Hq Hnd']; subst. simpl. destruct Hin as [->|Hin].
  - apply store_row_untouched. rewrite (proj1 (store_one_fields p r)), E. exact Hq.
  - assert (Hne : store_one q r = r).
    { unfold store_one, set_score. destruct (Z.eqb_spec (id r) (id (fst q))) as [Eq|]; [|reflexivity].
      exfalso. apply Hq. apply in_map_iff. exists p. unfold eval_id. split; [congruence|assumption]. }
    rewrite Hne. now apply IH.
Qed.

End RankLoop.

Section RankCases.
Variables (req : Request) (db : Db) (jobKey : string).
Hypothesis Hkey : body_jobKey req = Some jobKey.
Hypothesis Hne : jobKey <> "".

Lemma rank_try_unfold :
  rank_try req db =
  match jobs_with_key jobKey db with
  | [] => (Ok not_found, db)
  | j :: _ =>
      if (List.length (pending_rows jobKey db) =? 0)%nat then (Ok empty_batch, db)
      else
        match rank_loop (pending_rows jobKey db) j [] db with
        | (Ok ranked, db') =>
            (Ok (ranked_response (List.length (pending_rows jobKey db)) ranked),
             with_audit db' req jobKey (List.length (pending_rows jobKey db)))
        | (Throw e, db') => (Throw e, db')
        end
  end.
Proof.
  unfold rank_try. rewrite Hkey. destruct jobKey as [|c k]; [congruence|].
  unfold bind at 1. unfold select_job at 1. fold (jobs_with_key (String c k) db).
  destruct (jobs_with_key (String c k) db) as [|j js]; [reflexivity|].
  unfold bind at 1. unfold select_pending at 1. fold (pending_rows (String c k) db).
  destruct (List.length (pending_rows (String c k) db) =? 0)%nat; [reflexivity|].
  unfold bind at 1.
  destruct (rank_loop (pending_rows (String c k) db) j [] db) as [[ranked|e] db'];
    [|reflexivity].
  unfold bind, with_audit, logAuditEvent.
  destruct (existsb (Z.eqb (user_userId req)) (users db')); reflexivity.
Qed.

Lemma with_audit_tables (d : Db) (n : nat) :
  users (with_audit d req jobKey n) = users d /\
  job_descriptions (with_audit d req jobKey n) = job_descriptions d /\
  applications (with_audit d req jobKey n) = applications d.
Proof.
  unfold with_audit, logAuditEvent.
  destruct (existsb (Z.eqb (user_userId req)) (users d)); repeat split.
Qed.

Lemma rank_not_found_eq : jobs_with_key jobKey db = [] -> rank req db = (not_found, db).
Proof. intros E. unfold rank, try_catch. now rewrite rank_try_unfold, E. Qed.

Lemma rank_empty_eq (j : JobDescription) (js : list JobDescription) :
  jobs_with_key jobKey db = j :: js -> pending_rows jobKey db = [] ->
  rank req db = (empty_batch, db).
Proof. intros Ej Ep. unfold rank, try_catch. now rewrite rank_try_unfold, Ej, Ep. Qed.

Lemma rank_ranked_eq (j : JobDescription) (js : list JobDescription)
    (evals : list (Application * Analysis)) :
  jobs_with_key jobKey db = j :: js ->
  pending_rows jobKey db = map fst evals ->
  evals <> [] ->
  Forall (evaluated j) evals ->
  rank req db = (ranked_response (List.length evals) (map entry_of evals),
                 with_audit (store evals db) req jobKey (List.length evals)).
Proof.
  intros Ej Ep Hn Hev. unfold rank, try_catch. rewrite rank_try_unfold, Ej, Ep.
  rewrite length_map.
  replace (List.length evals =? 0)%nat with false by (destruct evals; [congruence|reflexivity]).
  rewrite <- (app_nil_r (map fst evals)).
  rewrite (rank_loop_prefix [] Hev). reflexivity.
Qed.

Lemma rank_aborted_eq (j : JobDescription) (js : list JobDescription)
    (evals : list (Application * Analysis)) (bad : Application) (post : list Application)
    (e : JsError) :
  jobs_with_key jobKey db = j :: js ->
  pending_rows jobKey db = (map fst evals ++ bad :: post)%list ->
  Forall (evaluated j) evals ->
  analyzeApplication (cv_content bad) j = Throw e ->
  rank req db = (failed, store evals db).
Proof.
  intros Ej Ep Hev Hbad. unfold rank, try_catch. rewrite rank_try_unfold, Ej, Ep.
  replace (List.length (map fst evals ++ bad :: post) =? 0)%nat with false
    by (rewrite length_app; simpl; symmetry; apply Nat.eqb_neq; lia).
  rewrite (rank_loop_prefix (bad :: post) Hev).
  rewrite (@rank_loop_throw j bad post e Hbad). reflexivity.
Qed.

Lemma rank_cases : rank_outcome req db jobKey (rank req db).
Proof.
  destruct (jobs_with_key jobKey db) as [|j js] eqn:Ej.
  { rewrite rank_not_found_eq by assumption. now constructor. }
  destruct (first_failure j (pending_rows jobKey db)) as [evals [rest [E [Hev Hrest]]]].
  destruct Hrest as [-> | [bad [post [e [-> Hbad]]]]].
  - rewrite app_nil_r in E. destruct evals as [|p evals].
    + rewrite (rank_empty_eq Ej E). eapply outcome_empty; eauto.
    + rewrite (rank_ranked_eq Ej E (evals := p :: evals)) by (assumption || discriminate).
      eapply outcome_ranked; eauto. discriminate.
  - rewrite (@rank_aborted_eq j js evals bad post e Ej E Hev Hbad).
    eapply outcome_aborted with (post := post); eauto.
Qed.

End RankCases.

Lemma rank_without_key (req : Request) (db : Db) :
  body_jobKey req = None \/ body_jobKey req = Some "" -> rank req db = (key_required, db).
Proof. unfold rank, try_catch, rank_try. intros [-> | ->]; reflexivity. Qed.

Lemma key_cases (o : option string) :
  (o = None \/ o = Some "") \/ exists k, o = Some k /\ k <> "".
Proof.
  destruct o as [[|c k]|]; auto. right. exists (String c k). split; [reflexivity|discriminate].
Qed.

Lemma jobs_with_key_nil (jobKey : string) (db : Db) :
  jobs_with_key jobKey db = [] <->
  forall j, In j (job_descriptions db) -> job_key j <> jobKey.
Proof.
  unfold jobs_with_key. split.
  - intros E j Hin Hk.
    assert (H : In j (filter (fun j => String.eqb (job_key j) jobKey) (job_descriptions db))).
    { apply filter_In. split; [assumption|]. now apply String.eqb_eq. }
    rewrite E in H. contradiction.
  - intros H. destruct (filter _ _) as [|j js] eqn:E; [reflexivity|].
    assert (Hin : In j (j :: js)) by now left.
    rewrite <- E in Hin. apply filter_In in Hin. destruct Hin as [Hin Hk].
    apply String.eqb_eq in Hk. now apply H in Hin.
Qed.

(** C2, as the endpoint behaves.  For a non-empty job key the answer is 404
    Job not found exactly when no job row carries the key, whether active or
    not, and 400 No pending applications to rank exactly when such a row
    exists and no application of the job is pending and unscored; with either
    answer the database is left as it was, audit log included. *)
Theorem rank_failure_cases (req : Request) (db : Db) (jobKey : string) :
  body_jobKey req = Some jobKey -> jobKey <> "" ->
  (fst (rank req db) = not_found <->
     forall j, In j (job_descriptions db) -> job_key j <> jobKey) /\
  (fst (rank req db) = empty_batch <->
     (exists j, In j (job_descriptions db) /\ job_key j = jobKey) /\
     pending_rows jobKey db = []) /\
  (fst (rank req db) = not_found \/ fst (rank req db) = empty_batch -> snd (rank req db) = db).
Proof.
  intros Hkey Hne. rewrite <- jobs_with_key_nil.
  assert (Hex : (exists j, In j (job_descriptions db) /\ job_key j = jobKey)
                <-> jobs_with_key jobKey db <> []).
  { rewrite jobs_with_key_nil. split.
    - intros [j [Hin Hk]] H. exact (H j Hin Hk).
    - intros H. destruct (jobs_with_key jobKey db) as [|j js] eqn:E.
      + exfalso. apply H. now apply jobs_with_key_nil.
      + exists j. assert (Hin : In j (j :: js)) by now left.
        rewrite <- E in Hin. apply filter_In in Hin.
        destruct Hin as [Hin Hk]. apply String.eqb_eq in Hk. now split.
        }
  rewrite Hex.
  destruct (@rank_cases req db jobKey Hkey Hne) as [E | j js Ej Ep | j js evals Ej Ep Hn Hev
                                       | j js evals bad post e Ej Ep Hev Hbad];
    cbn [fst snd]; rewrite ?Ej.
  - rewrite E. repeat split; try tauto; try discriminate.
  - repeat split; try tauto; try discriminate.
  - repeat split; try discriminate; try (intros [H|H]; discriminate).
    intros [_ H]. rewrite H in Ep. destruct evals; [congruence|discriminate].
  - repeat split; try discriminate; try (intros [H|H]; discriminate).
    intros [_ H]. rewrite H in Ep. destruct (map fst evals); discriminate.
Qed.

(* ------------------------------------------------------------------ *)
(** ** What the stored scores do to later selections *)

Section Selection.

Lemma id_in_iff (ids : list Z) (a : Application) : id_in ids a = true <-> In (id a) ids.
Proof.
  unfold id_in. rewrite existsb_exists. split.
  - intros [x [Hin E]]. apply Z.eqb_eq in E. congruence.
  - intros H. exists (id a). split; [assumption | apply Z.eqb_refl].
Qed.

Lemma eval_ids (evals : list (Application * Analysis)) :
  map eval_id evals = map id (map fst evals).
Proof. now rewrite map_map. Qed.

Lemma same_id_same_row (l : list Application) (a b : Application) :
  NoDup (map id l) -> In a l -> In b l -> id a = id b -> a = b.
Proof.
  induction l as [|x l IH]; simpl; intros Hnd Ha Hb E; [contradiction|].
  inversion Hnd as [|y ys Hx Hnd']; subst.
  destruct Ha as [->|Ha], Hb as [->|Hb]; auto.
  - exfalso. apply Hx. rewrite E. now apply in_map.
  - exfalso. apply Hx. rewrite <- E. now apply in_map.
Qed.

Lemma NoDup_ids_filter (p : Application -> bool) (l : list Application) :
  NoDup (map id l) -> NoDup (map id (filter p l)).
Proof.
  induction l as [|x l IH]; simpl; intros Hnd; [constructor|].
  inversion Hnd as [|y ys Hx Hnd']; subst.
  destruct (p x); simpl; auto. constructor; auto.
  intros H. apply Hx. apply in_map_iff in H. destruct H as [b [E Hb]].
  apply filter_In in Hb. apply in_map_iff. exists b. tauto.
Qed.

Lemma filter_both (p q : Application -> bool) (l : list Application) :
  filter (fun a => p a && q a) l = filter q (filter p l).
Proof.
  induction l as [|x l IH]; simpl; [reflexivity|].
  destruct (p x); simpl; [destruct (q x)|]; now rewrite IH.
Qed.

Lemma filter_out_own_ids (l : list Application) (ids : list Z) :
  (forall a, In a l -> In (id a) ids) ->
  filter (fun a => negb (id_in ids a)) l = [].
Proof.
  induction l as [|x l IH]; simpl; intros H; [reflexivity|].
  replace (id_in ids x) with true by (symmetry; apply id_in_iff; apply H; now left).
  simpl. apply IH. intros a Ha. apply H. now right.
Qed.

Lemma filter_keep_other_ids (l : list Application) (ids : list Z) :
  (forall a, In a l -> ~ In (id a) ids) ->
  filter (fun a => negb (id_in ids a)) l = l.
Proof.
  induction l as [|x l IH]; simpl; intros H; [reflexivity|].
  destruct (id_in ids x) eqn:E.
  - exfalso. apply (H x (or_introl eq_refl)). now apply id_in_iff.
  - simpl. f_equal. apply IH. intros a Ha. apply H. now right.
Qed.

Lemma NoDup_ids_split (l1 l2 : list Application) :
  NoDup (map id (l1 ++ l2)) -> forall a, In a l2 -> ~ In (id a) (map id l1).
Proof.
  induction l1 as [|x l1 IH]; simpl; intros Hnd a Ha; [tauto|].
  inversion Hnd as [|y ys Hx Hnd']; subst. intros [E|H].
  - apply Hx. rewrite E. apply in_map. apply in_or_app. now right.
  - exact (IH Hnd' a Ha H).
Qed.

(** Rows stored for [evals] leave the selection; every other row stays as
    it was. *)
Lemma pending_after_store (jobKey : string) (evals : list (Application * Analysis))
    (tbl : list Application) :
  filter (pending_unscored jobKey) (map (store_row evals) tbl)
  = filter (fun a => negb (id_in (map eval_id evals) a)) (filter (pending_unscored jobKey) tbl).
Proof.
  rewrite <- filter_both. induction tbl as [|r tbl IH]; [reflexivity|].
  cbn [map filter]. rewrite IH.
  destruct (id_in (map eval_id evals) r) eqn:E.
  - apply id_in_iff in E. apply store_row_scored in E.
    unfold pending_unscored at 1. rewrite E, !andb_false_r. reflexivity.
  - assert (Hn : ~ In (id r) (map eval_id evals)).
    { intros H. apply id_in_iff in H. congruence. }
    rewrite (store_row_untouched evals r Hn), andb_true_r. reflexivity.
Qed.

Lemma evaluations_exist (job : JobDescription) (pre : list Application) :
  (forall a, In a pre -> exists an, analyzeApplication (cv_content a) job = Ok an) ->
  exists evals, map fst evals = pre /\ Forall (evaluated job) evals.
Proof.
  induction pre as [|a pre IH]; intros H.
  - exists []. split; constructor.
  - destruct (H a (or_introl eq_refl)) as [an Ha].
    destruct IH as [evals [E Hev]]; [intros b Hb; apply H; now right|].
    exists ((a, an) :: evals). split; [simpl; congruence | now constructor].
Qed.

End Selection.

Lemma stored_rows_outside_selection (jobKey : string) (db : Db)
    (evals : list (Application * Analysis)) (rest : list Application) (a : Application) :
  NoDup (map id (applications db)) ->
  pending_rows jobKey db = (map fst evals ++ rest)%list ->
  In a (applications db) ->
  pending_unscored jobKey a = false ->
  store_row evals a = a.
Proof.
  intros Hnd Ep Ha Hp. apply store_row_untouched. rewrite eval_ids. intros H.
  apply in_map_iff in H. destruct H as [b [E Hb]].
  assert (Hb' : In b (pending_rows jobKey db)) by (rewrite Ep; apply in_or_app; now left).
  apply filter_In in Hb'. destruct Hb' as [Hb1 Hb2].
  assert (b = a) by (eapply same_id_same_row; eauto). congruence.
Qed.

Lemma stored_table_ids (evals : list (Application * Analysis)) (tbl : list Application) :
  map id (map (store_row evals) tbl) = map id tbl.
Proof.
  rewrite map_map. apply map_ext. intros r. apply store_row_fields.
Qed.

(** C3, as the endpoint behaves.  The endpoint scores only rows that are
    pending and unscored for the requested job: every other row, and in
    particular every row that already has a score, is still in the table
    exactly as it was, whatever the outcome, and no row is added or removed.
    After a call that answered 200, a second call with the same request
    finds nothing to score: it returns no ordering but answers 400 No pending
    applications to rank, and changes nothing, so the stored scores stay
    those of the first call. *)
Theorem rank_idempotent (req : Request) (db : Db) :
  NoDup (map id (applications db)) ->
  Permutation (map id (applications db)) (map id (applications (snd (rank req db)))) /\
  (forall a,
      In a (applications db) ->
      (forall jobKey, body_jobKey req = Some jobKey -> pending_unscored jobKey a = false) ->
      In a (applications (snd (rank req db)))) /\
  (forall a,
      In a (applications db) ->
      ai_score a <> None ->
      In a (applications (snd (rank req db)))) /\
  (status_code (fst (rank req db)) = 200 ->
   rank req (snd (rank req db)) = (empty_batch, snd (rank req db))).
Proof.
  intros Hnd.
  assert (H0 : Permutation (map id (applications db))
                 (map id (applications (snd (rank req db))))).
  { destruct (key_cases (body_jobKey req)) as [Hk | [jobKey [Hkey Hne]]].
    { now rewrite (@rank_without_key req db Hk). }
    destruct (@rank_cases req db jobKey Hkey Hne)
      as [E | j js Ej Ep | j js evals Ej Ep Hn Hev | j js evals bad post e Ej Ep Hev Hbad];
      cbn [snd]; try reflexivity.
    - rewrite (proj2 (proj2 (with_audit_tables req jobKey (store evals db) _))).
      cbn [store applications]. now rewrite stored_table_ids.
    - cbn [store applications]. now rewrite stored_table_ids. }
  assert (H1 : forall a,
      In a (applications db) ->
      (forall jobKey, body_jobKey req = Some jobKey -> pending_unscored jobKey a = false) ->
      In a (applications (snd (rank req db)))).
  { intros a Ha Hp.
    destruct (key_cases (body_jobKey req)) as [Hk | [jobKey [Hkey Hne]]].
    { now rewrite (@rank_without_key req db Hk). }
    specialize (Hp jobKey Hkey).
    assert (Hstore : forall evals rest,
               pending_rows jobKey db = (map fst evals ++ rest)%list ->
               In a (map (store_row evals) (applications db))).
    { intros evals rest Ep. apply in_map_iff. exists a. split; [|assumption].
      eapply stored_rows_outside_selection; eauto. }
    destruct (@rank_cases req db jobKey Hkey Hne)
      as [E | j js Ej Ep | j js evals Ej Ep Hn Hev | j js evals bad post e Ej Ep Hev Hbad];
      cbn [snd]; auto.
    - rewrite (proj2 (proj2 (with_audit_tables req jobKey (store evals db) _))).
      cbn [store applications]. apply (Hstore evals []). now rewrite app_nil_r.
    - cbn [store applications]. now apply (Hstore evals (bad :: post)). }
  refine (conj H0 (conj H1 (conj _ _))).
  - intros a Ha Hs. apply H1; [assumption|]. intros jobKey _.
    unfold pending_unscored. destruct (ai_score a); [|congruence].
    now rewrite andb_false_r.
  - destruct (key_cases (body_jobKey req)) as [Hk | [jobKey [Hkey Hne]]].
    { rewrite (@rank_without_key req db Hk). discriminate. }
    destruct (@rank_cases req db jobKey Hkey Hne)
      as [E | j js Ej Ep | j js evals Ej Ep Hn Hev | j js evals bad post e Ej Ep Hev Hbad];
      cbn [fst snd]; try discriminate.
    intros _.
    destruct (with_audit_tables req jobKey (store evals db) (List.length evals))
      as (_ & Hj & Ha).
    eapply rank_empty_eq with (j := j) (js := js); eauto.
    + unfold jobs_with_key in *. rewrite Hj. exact Ej.
    + unfold pending_rows. rewrite Ha. cbn [applications store].
      rewrite pending_after_store. fold (pending_rows jobKey db). rewrite Ep.
      apply filter_out_own_ids. intros a Hin. rewrite eval_ids. now apply in_map.
Qed.

(** C4, as the endpoint behaves.  When the analysis of one pending
    application throws, the whole call is abandoned: the answer is 500 Failed
    to rank applications, with no entry for anyone; the applications analysed
    before the failing one keep the score and explanation already stored for
    them; the failing application and all that come after it are untouched
    and are exactly what the next call selects; no audit row is written. *)
Theorem rank_aborts_on_failure (req : Request) (db : Db) (jobKey : string)
    (job : JobDescription) (others : list JobDescription)
    (pre : list Application) (bad : Application) (post : list Application) (e : JsError) :
  body_jobKey req = Some jobKey -> jobKey <> "" ->
  NoDup (map id (applications db)) ->
  jobs_with_key jobKey db = job :: others ->
  pending_rows jobKey db = (pre ++ bad :: post)%list ->
  (forall a, In a pre -> exists an, analyzeApplication (cv_content a) job = Ok an) ->
  analyzeApplication (cv_content bad) job = Throw e ->
  fst (rank req db) = failed /\
  pending_rows jobKey (snd (rank req db)) = bad :: post /\
  (forall a an,
      In a pre -> analyzeApplication (cv_content a) job = Ok an ->
      In (set_score (score an) (explanation an) (id a) a) (applications (snd (rank req db)))) /\
  audit_logs (snd (rank req db)) = audit_logs db /\
  job_descriptions (snd (rank req db)) = job_descriptions db.
Proof.
  intros Hkey Hne Hnd Ej Ep Hpre Hbad.
  destruct (evaluations_exist job pre Hpre) as [evals [E Hev]]. subst pre.
  rewrite (@rank_aborted_eq req db jobKey Hkey Hne job others evals bad post e Ej Ep Hev Hbad).
  cbn [fst snd]. 
  assert (Hndp : NoDup (map id (map fst evals ++ bad :: post))).
  { rewrite <- Ep. now apply NoDup_ids_filter. }
  refine (conj eq_refl (conj _ (conj _ (conj eq_refl eq_refl)))).
  - unfold pending_rows. cbn [store applications]. rewrite pending_after_store.
    fold (pending_rows jobKey db). rewrite Ep, filter_app, eval_ids.
    rewrite filter_out_own_ids by (intros a Ha; now apply in_map).
    apply filter_keep_other_ids. intros a Ha. eapply NoDup_ids_split; eauto.
  - intros a an Ha Han. cbn [store applications].
    apply in_map_iff in Ha. destruct Ha as [p [Ea Hp]]. subst a.
    assert (Hp' : snd p = an).
    { rewrite Forall_forall in Hev. specialize (Hev p Hp). unfold evaluated in Hev. congruence. }
    subst an. apply in_map_iff. exists (fst p). split.
    + apply store_row_exact; auto.
      rewrite eval_ids. rewrite map_app in Hndp. now apply NoDup_app_remove_r in Hndp.
    + assert (H : In (fst p) (pending_rows jobKey db)).
      { rewrite Ep. apply in_or_app. left. now apply in_map. }
      apply filter_In in H. tauto.
Qed.

Lemma StronglySorted_map {A B : Type} (R : B -> B -> Prop) (f : A -> B) (l : list A) :
  StronglySorted R (map f l) -> StronglySorted (fun a b => R (f a) (f b)) l.
Proof.
  induction l as [|x l IH]; simpl; intros H; [constructor|].
  inversion H as [|y ys Hs Hall]; subst. constructor; [auto|].
  rewrite Forall_forall in *. intros a Ha. apply Hall. now apply in_map.
Qed.

(** C9, as the endpoint behaves.  The entries of a 200 answer are the
    entries of the selected rows, ordered by descending score; entries with
    equal scores stay in the order in which the selection returned their
    rows, because the comparator reads nothing but the score.  Hence ties
    follow submission time whenever the selection returns the rows in order
    of submission time, and not otherwise. *)
Theorem rank_sorted_stable (req : Request) (db : Db) (jobKey : string)
    (ok : bool) (sorted : list RankedApplication) (msg : string) :
  body_jobKey req = Some jobKey ->
  fst (rank req db) = mkResponse 200 (RankBody ok sorted msg) ->
  exists ranked,
    map ra_id ranked = map id (pending_rows jobKey db) /\
    Permutation sorted ranked /\
    StronglySorted (fun a b => ra_score b <= ra_score a) sorted /\
    (forall s,
        filter (fun r => ra_score r =? s) sorted = filter (fun r => ra_score r =? s) ranked) /\
    (forall t : Z -> Z,
        StronglySorted Z.le (map t (map id (pending_rows jobKey db))) ->
        forall s,
          StronglySorted (fun a b => t (ra_id a) <= t (ra_id b))
            (filter (fun r => ra_score r =? s) sorted)).
Proof.
  intros Hkey Hres.
  destruct (key_cases (body_jobKey req)) as [Hk | [k [Hkey' Hne]]].
  { rewrite (@rank_without_key req db Hk) in Hres. discriminate. }
  assert (k = jobKey) by congruence. subst k.
  destruct (@rank_cases req db jobKey Hkey Hne)
    as [E | j js Ej Ep | j js evals Ej Ep Hn Hev | j js evals bad post e Ej Ep Hev Hbad];
    cbn [fst] in Hres; try discriminate.
  unfold ranked_response in Hres. injection Hres as _ Hs _. subst sorted.
  exists (map entry_of evals).
  assert (Hids : map ra_id (map entry_of evals) = map id (pending_rows jobKey db)).
  { rewrite Ep, !map_map. reflexivity. }
  refine (conj Hids (conj _ (conj _ (conj _ _)))).
  - apply sort_perm.
  - apply (@sort_sorted _ ra_score by_score_desc by_score_desc_key).
  - intros s. apply (@sort_stable _ ra_score by_score_desc by_score_desc_key s).
  - intros t Ht s.
    apply (@sort_ties_follow_input _ ra_score by_score_desc by_score_desc_key
             (fun r => t (ra_id r)) s).
    rewrite <- Hids in Ht. apply StronglySorted_map in Ht.
    now apply StronglySorted_map in Ht.
Qed.

(* ------------------------------------------------------------------ *)
(** ** What the answer depends on *)

Section Independence.

Lemma analyze_same_merits (c1 c2 : option CvContent) (job : JobDescription) :
  same_merits c1 c2 -> analyzeApplication c1 job = analyzeApplication c2 job.
Proof.
  destruct c1 as [x|], c2 as [y|]; simpl; try tauto.
  intros (Hs & Hx & He & Ha).
  unfold analyze_locals, evaluateExperience, experience_line, education_score,
    education_line, education_includes.
  now rewrite Hs, Hx, He, Ha.
Qed.

Lemma rank_loop_same (job : JobDescription) (apps1 apps2 : list Application) :
  Forall2 same_but_identity apps1 apps2 ->
  forall acc db1 db2,
    fst (rank_loop apps1 job acc db1) = fst (rank_loop apps2 job acc db2).
Proof.
  induction 1 as [|a1 a2 l1 l2 (Hi & _ & _ & _ & Hn & Hm) _ IH]; intros acc db1 db2;
    [reflexivity|].
  cbn [rank_loop]. unfold bind at 1 3, lift.
  rewrite (analyze_same_merits _ _ job Hm).
  destruct (analyzeApplication (cv_content a2) job) as [an|e]; [|reflexivity].
  unfold bind at 1 2. cbn [update_score]. rewrite Hi, Hn. apply IH.
Qed.

Lemma pending_same (jobKey : string) (l1 l2 : list Application) :
  Forall2 same_but_identity l1 l2 ->
  Forall2 same_but_identity
    (filter (pending_unscored jobKey) l1) (filter (pending_unscored jobKey) l2).
Proof.
  induction 1 as [|a1 a2 l1 l2 Ha _ IH]; [constructor|].
  cbn [filter].
  assert (E : pending_unscored jobKey a1 = pending_unscored jobKey a2).
  { destruct Ha as (_ & Hj & Hs & Hsc & _). unfold pending_unscored.
    now rewrite Hj, Hs, Hsc. }
  rewrite E. destruct (pending_unscored jobKey a2); [now constructor | assumption].
Qed.

End Independence.

(** C1, as the platform endpoint behaves.  The answer of the ranking
    endpoint is the same for two databases whose application rows differ
    only in what identifies the applicants, and every entry it returns has
    exactly the properties id, anonymized_id, score and explanation. *)
Theorem rank_hides_identity (req : Request) (db1 db2 : Db) :
  job_descriptions db1 = job_descriptions db2 ->
  Forall2 same_but_identity (applications db1) (applications db2) ->
  fst (rank req db1) = fst (rank req db2) /\
  (forall ok entries msg,
      fst (rank req db1) = mkResponse 200 (RankBody ok entries msg) ->
      forall r, In r entries ->
        keys (ranked_object r) = ["id"; "anonymized_id"; "score"; "explanation"]).
Proof.
  intros Hj Ha. split; [|reflexivity].
  destruct (key_cases (body_jobKey req)) as [Hk | [jobKey [Hkey Hne]]].
  { now rewrite !(@rank_without_key req _ Hk). }
  unfold rank, try_catch.
  rewrite (@rank_try_unfold req db1 jobKey Hkey Hne), (@rank_try_unfold req db2 jobKey Hkey Hne).
  unfold jobs_with_key. rewrite Hj.
  destruct (filter _ (job_descriptions db2)) as [|j js]; [reflexivity|].
  pose proof (pending_same jobKey Ha) as Hp. fold (pending_rows jobKey db1) in Hp.
  fold (pending_rows jobKey db2) in Hp.
  rewrite (Forall2_length Hp).
  destruct (List.length (pending_rows jobKey db2) =? 0)%nat; [reflexivity|].
  pose proof (rank_loop_same j Hp [] db1 db2) as Hl.
  destruct (rank_loop (pending_rows jobKey db1) j [] db1) as [[r1|e1] d1],
           (rank_loop (pending_rows jobKey db2) j [] db2) as [[r2|e2] d2];
    cbn [fst] in *; try discriminate; [|reflexivity].
  injection Hl as ->. reflexivity.
Qed.

(** X13.  [rankCVs], for every completion service: each result carries the
    uploaded text of its CV and the e-mail address found in it. *)
Lemma rankCVs_carries_contact (reply : string -> list ChatMessage -> string)
    (cvs : list UploadedCV) (jobDesc : string) (r : RankedCV) :
  In r (rankCVs reply cvs jobDesc) ->
  exists cv, In cv cvs /\ rcv_filename r = filename cv /\ rcv_content r = content cv /\
             rcv_email r = extractEmail (content cv) /\
             keys (ranked_cv_object r) = ["filename"; "content"; "explanation"; "email"].
Proof.
  unfold rankCVs. intros H.
  apply (Permutation_in _ (sort_perm by_explanation_length_desc _)) in H.
  apply in_map_iff in H. destruct H as [cv [E Hin]]. subst r.
  exists cv. repeat split; assumption.
Qed.

(* ------------------------------------------------------------------ *)
(** ** Concrete runs *)

(** C2: a deactivated job is ranked like any other; the endpoint answers
    200 and stores the score. *)
Lemma rank_inactive_job_is_ranked :
  map is_active (jobs_with_key "dev" db_closed_job) = [false] /\
  status_code (fst (rank recruiter_request db_closed_job)) = 200 /\
  fst (rank recruiter_request db_closed_job) <> not_found /\
  map ai_score (applications (snd (rank recruiter_request db_closed_job))) = [Some 63].
Proof. vm_compute. repeat split. discriminate. Qed.

Lemma dev_key_nonempty : "dev" <> "".
Proof. discriminate. Qed.

Lemma rank_failure_cases_witness :
  fst (rank recruiter_request db_no_jobs) = not_found /\
  snd (rank recruiter_request db_no_jobs) = db_no_jobs.
Proof.
  destruct (@rank_failure_cases recruiter_request db_no_jobs "dev" eq_refl dev_key_nonempty)
    as [H1 [_ H3]].
  assert (H : fst (rank recruiter_request db_no_jobs) = not_found)
    by (apply H1; intros j []).
  exact (conj H (H3 (or_introl H))).
Defined.

Lemma db_tie_ids_distinct : NoDup (map id (applications db_tie)).
Proof. simpl. repeat constructor; simpl; intuition discriminate. Qed.

Lemma rank_idempotent_witness :
  NoDup (map id (applications db_tie)) /\
  status_code (fst (rank recruiter_request db_tie)) = 200 /\
  rank recruiter_request (snd (rank recruiter_request db_tie))
  = (empty_batch, snd (rank recruiter_request db_tie)).
Proof.
  refine (conj db_tie_ids_distinct (conj eq_refl _)).
  exact (proj2 (proj2 (proj2 (@rank_idempotent recruiter_request db_tie db_tie_ids_distinct)))
           eq_refl).
Defined.

(** C3, as the spec states it, fails: the first call answers 200 with the
    two entries in their order and with their scores; the second call, with
    the same request and no application added, returns no ordering and no
    score at all but the error of an empty batch. *)
Lemma rank_second_call_is_refused :
  fst (rank recruiter_request db_tie)
  = mkResponse 200 (RankBody true tie_entries "2 applications ranked successfully") /\
  fst (rank recruiter_request (snd (rank recruiter_request db_tie))) = empty_batch /\
  fst (rank recruiter_request (snd (rank recruiter_request db_tie)))
  <> fst (rank recruiter_request db_tie).
Proof.
  refine (conj eq_refl (conj eq_refl _)). vm_compute. discriminate.
Qed.

(** C4: the application without a stored CV makes the whole call fail; the
    third application, whose CV is in order, is not scored, and the answer
    carries no entry at all. *)
Lemma rank_failure_aborts_batch :
  fst (rank recruiter_request db_broken_cv) = failed /\
  map ai_score (applications (snd (rank recruiter_request db_broken_cv)))
    = [Some 63; None; None] /\
  analyzeApplication (Some (extracted_cv redacted)) (dev_job true)
    = Ok {| score := 63;
            explanation :=
              "✓ Excellent relevant experience: 6 years with strong background in required areas"
              ++ newline ++ "✓ 2 matching skill(s): JavaScript, SQL"
              ++ newline ++ "✓ Holds a Bachelor's degree"
              ++ newline ++ "✓ 3 notable achievement(s)" |}.
Proof. vm_compute. repeat split. Qed.

Lemma db_broken_ids_distinct : NoDup (map id (applications db_broken_cv)).
Proof. simpl. repeat constructor; simpl; intuition discriminate. Qed.

Lemma rank_aborts_on_failure_witness :
  fst (rank recruiter_request db_broken_cv) = failed /\
  pending_rows "dev" (snd (rank recruiter_request db_broken_cv))
  = [application 2 "bob@example.org" "APP_BBB222" None 200;
     application 3 "cyd@example.org" "APP_CCC333" (Some (extracted_cv redacted)) 300].
Proof.
  destruct (@rank_aborts_on_failure recruiter_request db_broken_cv "dev" (dev_job true) []
              [application 1 "ann@example.org" "APP_AAA111" (Some (extracted_cv redacted)) 100]
              (application 2 "bob@example.org" "APP_BBB222" None 200)
              [application 3 "cyd@example.org" "APP_CCC333" (Some (extracted_cv redacted)) 300]
              (TypeError "Cannot read properties of null (reading 'experience')")
              eq_refl dev_key_nonempty db_broken_ids_distinct eq_refl eq_refl)
    as [H1 [H2 _]].
  - intros a [<-|[]]. eexists. reflexivity.
  - reflexivity.
  - exact (conj H1 H2).
Defined.

(** C9: of two applications with equal scores the later submission is
    ranked first when the scan returns its row first. *)
Lemma rank_tie_ignores_submission :
  map (fun a => (id a, submitted_at a)) (pending_rows "dev" db_tie) = [(2, 200); (1, 100)] /\
  match body (fst (rank recruiter_request db_tie)) with
  | RankBody _ entries _ => map (fun r => (ra_id r, ra_score r)) entries = [(2, 63); (1, 63)]
  | ErrorBody _ => False
  end.
Proof. vm_compute. split; reflexivity. Qed.

Lemma rank_sorted_stable_witness :
  fst (rank recruiter_request db_tie)
  = mkResponse 200 (RankBody true tie_entries "2 applications ranked successfully") /\
  exists ranked,
    map ra_id ranked = [2; 1] /\
    Permutation tie_entries ranked /\
    StronglySorted (fun a b => ra_score b <= ra_score a) tie_entries.
Proof.
  split; [reflexivity|].
  destruct (@rank_sorted_stable recruiter_request db_tie "dev" true tie_entries
              "2 applications ranked successfully" eq_refl eq_refl)
    as [ranked [H1 [H2 [H3 _]]]].
  exists ranked. exact (conj H1 (conj H2 H3)).
Defined.

Lemma db_tie_same_but_identity :
  Forall2 same_but_identity (applications db_tie) (applications db_tie_other_people).
Proof. repeat constructor. Qed.

Lemma rank_hides_identity_witness :
  map email (applications db_tie) <> map email (applications db_tie_other_people) /\
  fst (rank recruiter_request db_tie) = fst (rank recruiter_request db_tie_other_people).
Proof.
  split; [discriminate|].
  exact (proj1 (@rank_hides_identity recruiter_request db_tie db_tie_other_people
                  eq_refl db_tie_same_but_identity)).
Defined.

(** C1: the prototype routine hands back, for each CV, the uploaded text
    with the name in it and the e-mail address read out of that text. *)
Lemma rankCVs_returns_contact_data :
  map ranked_cv_object (rankCVs canned_reply [jane_upload] "Developer")
  = [ [ ("filename", VStr "jane_doe.txt");
        ("content", VStr "Jane Doe, jane.doe@example.org, 6 years of JavaScript and SQL");
        ("explanation", VStr "Relevant experience; meets the requirements.");
        ("email", VStr "jane.doe@example.org") ] ].
Proof. reflexivity. Qed.

(* ================================================================== *)
(** * Further properties of the ranking endpoint *)

Section RankEffects.

Lemma keeps_columns_refl (a : Application) : keeps_columns a a.
Proof. unfold keeps_columns. tauto. Qed.

Lemma store_one_keeps (p : Application * Analysis) (r : Application) :
  keeps_columns r (store_one p r).
Proof.
  unfold keeps_columns, store_one, set_score.
  destruct (id r =? id (fst p)); simpl; repeat split; auto; discriminate.
Qed.

Lemma store_row_keeps (evals : list (Application * Analysis)) :
  forall r, keeps_columns r (store_row evals r).
Proof.
  induction evals as [|p evals IH]; intros r; simpl; [apply keeps_columns_refl|].
  pose proof (store_one_keeps p r) as H1. pose proof (IH (store_one p r)) as H2.
  unfold keeps_columns in *.
  destruct H1 as (A1 & A2 & A3 & A4 & A5 & A6 & A7 & A8 & A9 & A10 & A11).
  destruct H2 as (B1 & B2 & B3 & B4 & B5 & B6 & B7 & B8 & B9 & B10 & B11).
  repeat split; try congruence. auto.
Qed.

Lemma stored_table_keeps (evals : list (Application * Analysis)) (tbl : list Application) :
  Forall2 keeps_columns tbl (map (store_row evals) tbl).
Proof.
  induction tbl as [|r tbl IH]; simpl; constructor; [apply store_row_keeps | assumption].
Qed.

Lemma table_keeps_itself (tbl : list Application) : Forall2 keeps_columns tbl tbl.
Proof. induction tbl; constructor; [apply keeps_columns_refl | assumption]. Qed.

(** What the endpoint leaves in the database, outcome by outcome. *)
Lemma rank_outcome_tables (req : Request) (db : Db) (jobKey : string) (res : Response * Db) :
  rank_outcome req db jobKey res ->
  job_descriptions (snd res) = job_descriptions db /\
  exists evals rest,
    pending_rows jobKey db = (map fst evals ++ rest)%list /\
    applications (snd res) = map (store_row evals) (applications db).
Proof.
  intros [E | j js Ej Ep | j js evals Ej Ep Hn Hev | j js evals bad post e Ej Ep Hev Hbad];
    cbn [snd].
  - split; [reflexivity|].
    exists [], (pending_rows jobKey db). split; [reflexivity|]. simpl. now rewrite map_id.
  - split; [reflexivity|].
    exists [], []. split; [now rewrite Ep|]. simpl. now rewrite map_id.
  - destruct (with_audit_tables req jobKey (store evals db) (List.length evals))
      as (_ & Hj & Ha).
    rewrite Hj, Ha. split; [reflexivity|].
    exists evals, []. split; [now rewrite app_nil_r | reflexivity].
  - split; [reflexivity|].
    exists evals, (bad :: post). split; [assumption | reflexivity].
Qed.

Lemma rank_keeps_users (req : Request) (db : Db) : users (snd (rank req db)) = users db.
Proof.
  destruct (key_cases (body_jobKey req)) as [Hk | [jobKey [Hkey Hne]]].
  { now rewrite (@rank_without_key req db Hk). }
  destruct (@rank_cases req db jobKey Hkey Hne); cbn [snd]; try reflexivity.
  now rewrite (proj1 (with_audit_tables req jobKey (store evals db) (List.length evals))).
Qed.

Lemma with_audit_log (req : Request) (jobKey : string) (d : Db) (n : nat) :
  audit_logs (with_audit d req jobKey n)
  = if existsb (Z.eqb (user_userId req)) (users d)
    then (audit_logs d ++ [rank_audit_row req jobKey n])%list
    else audit_logs d.
Proof.
  unfold with_audit, logAuditEvent.
  destruct (existsb (Z.eqb (user_userId req)) (users d)); reflexivity.
Qed.

Lemma known_user_iff (u : Z) (l : list Z) : existsb (Z.eqb u) l = true <-> In u l.
Proof.
  rewrite existsb_exists. split.
  - intros [x [Hin E]]. apply Z.eqb_eq in E. now subst.
  - intros H. exists u. split; [assumption | apply Z.eqb_refl].
Qed.

End RankEffects.

(** X1.  The endpoint writes nothing but scores and explanations: whatever it
    answers, the rows of the table of applications afterwards are, in some
    order, the rows it had before, each with every other column as it was
    (status included) and with a score if it had one; the table of jobs and
    the users are unchanged. *)
Theorem rank_touches_only_scores (req : Request) (db : Db) :
  (exists rows,
      Permutation rows (applications (snd (rank req db))) /\
      Forall2 keeps_columns (applications db) rows) /\
  job_descriptions (snd (rank req db)) = job_descriptions db /\
  users (snd (rank req db)) = users db.
Proof.
  refine (conj _ (conj _ (rank_keeps_users req db))).
  - exists (applications (snd (rank req db))). split; [reflexivity|].
    destruct (key_cases (body_jobKey req)) as [Hk | [jobKey [Hkey Hne]]].
    { rewrite (@rank_without_key req db Hk). apply table_keeps_itself. }
    destruct (rank_outcome_tables (@rank_cases req db jobKey Hkey Hne))
      as [Hj [evals [rest [_ Ha]]]].
    rewrite Ha. apply stored_table_keeps.
  - destruct (key_cases (body_jobKey req)) as [Hk | [jobKey [Hkey Hne]]].
    { now rewrite (@rank_without_key req db Hk). }
    exact (proj1 (rank_outcome_tables (@rank_cases req db jobKey Hkey Hne))).
Qed.

(** X2.  Every score the endpoint returns is the score it stored: for each entry
    of a 200 answer, the row with the entry's id carries the entry's score
    and explanation afterwards. *)
Theorem rank_stores_returned_scores (req : Request) (db : Db)
    (ok : bool) (entries : list RankedApplication) (msg : string) :
  NoDup (map id (applications db)) ->
  fst (rank req db) = mkResponse 200 (RankBody ok entries msg) ->
  forall r, In r entries ->
    exists a,
      In a (applications (snd (rank req db))) /\
      id a = ra_id r /\ anonymized_id a = ra_anonymized_id r /\
      ai_score a = Some (ra_score r) /\ ai_explanation a = Some (ra_explanation r).
Proof.
  intros Hnd Hres r Hr.
  destruct (key_cases (body_jobKey req)) as [Hk | [jobKey [Hkey Hne]]].
  { rewrite (@rank_without_key req db Hk) in Hres. discriminate. }
  destruct (@rank_cases req db jobKey Hkey Hne)
    as [E | j js Ej Ep | j js evals Ej Ep Hn Hev | j js evals bad post e Ej Ep Hev Hbad];
    cbn [fst] in Hres; try discriminate.
  unfold ranked_response in Hres. injection Hres as _ Hs _. subst entries.
  apply (Permutation_in _ (sort_perm by_score_desc _)) in Hr.
  apply in_map_iff in Hr. destruct Hr as [p [Er Hp]]. subst r.
  assert (Hrow : In (fst p) (applications db)).
  { assert (H : In (fst p) (pending_rows jobKey db)) by (rewrite Ep; now apply in_map).
    apply filter_In in H. tauto. }
  assert (Hnde : NoDup (map eval_id evals)).
  { rewrite eval_ids, <- Ep. now apply NoDup_ids_filter. }
  exists (store_row evals (fst p)). cbn [snd].
  rewrite (proj2 (proj2 (with_audit_tables req jobKey (store evals db) (List.length evals)))).
  cbn [store applications]. split.
  - now apply in_map.
  - rewrite (@store_row_exact evals Hnde p (fst p) Hp eq_refl).
    unfold store_one, set_score, entry_of. rewrite Z.eqb_refl. simpl. auto.
Qed.

(** X3.  A 200 answer reports success, has one entry for every application the
    selection returned and at least one, states that number in its message,
    and each entry is the analysis of its own row against the first job row
    with the requested key. *)
Theorem rank_answer_entries (req : Request) (db : Db) (jobKey : string)
    (ok : bool) (entries : list RankedApplication) (msg : string) :
  body_jobKey req = Some jobKey ->
  fst (rank req db) = mkResponse 200 (RankBody ok entries msg) ->
  ok = true /\
  entries <> [] /\
  List.length entries = List.length (pending_rows jobKey db) /\
  msg = JS.show_nat (List.length entries) ++ " applications ranked successfully" /\
  exists job others,
    jobs_with_key jobKey db = job :: others /\
    forall r, In r entries ->
      exists a,
        In a (pending_rows jobKey db) /\
        ra_id r = id a /\ ra_anonymized_id r = anonymized_id a /\
        analyzeApplication (cv_content a) job
        = Ok {| score := ra_score r; explanation := ra_explanation r |}.
Proof.
  intros Hkey Hres.
  destruct (key_cases (body_jobKey req)) as [Hk | [k [Hkey' Hne]]].
  { rewrite (@rank_without_key req db Hk) in Hres. discriminate. }
  assert (k = jobKey) by congruence. subst k.
  destruct (@rank_cases req db jobKey Hkey Hne)
    as [E | j js Ej Ep | j js evals Ej Ep Hn Hev | j js evals bad post e Ej Ep Hev Hbad];
    cbn [fst] in Hres; try discriminate.
  unfold ranked_response in Hres. injection Hres as Hok Hs Hm. subst ok entries msg.
  assert (Hlen : List.length (JS.sort by_score_desc (map entry_of evals)) = List.length evals).
  { rewrite (Permutation_length (sort_perm by_score_desc _)). apply length_map. }
  refine (conj eq_refl (conj _ (conj _ (conj _ _)))).
  - intros H. rewrite H in Hlen. destruct evals; [congruence|discriminate].
  - now rewrite Hlen, Ep, length_map.
  - now rewrite Hlen.
  - exists j, js. split; [assumption|]. intros r Hr.
    apply (Permutation_in _ (sort_perm by_score_desc _)) in Hr.
    apply in_map_iff in Hr. destruct Hr as [p [Er Hp]]. subst r.
    exists (fst p). rewrite Ep. split; [now apply in_map|].
    rewrite Forall_forall in Hev. specialize (Hev p Hp). unfold evaluated in Hev.
    rewrite Hev. destruct p as [a [sc ex]]. simpl. auto.
Qed.

(** X4.  With a 200 answer the endpoint has tried to write one audit row,
    naming the caller, the job key and the number of ranked applications:
    the audit log has grown by exactly that row when the caller is a user
    the database knows, and is as it was when the caller is not, the refused
    insert being swallowed.  With every other answer the audit log is left
    alone. *)
Theorem rank_audit_trail (req : Request) (db : Db) :
  (status_code (fst (rank req db)) = 200 ->
   exists jobKey,
     body_jobKey req = Some jobKey /\
     (In (user_userId req) (users db) ->
      audit_logs (snd (rank req db))
      = (audit_logs db
         ++ [rank_audit_row req jobKey (List.length (pending_rows jobKey db))])%list) /\
     (~ In (user_userId req) (users db) ->
      audit_logs (snd (rank req db)) = audit_logs db)) /\
  (status_code (fst (rank req db)) <> 200 ->
   audit_logs (snd (rank req db)) = audit_logs db).
Proof.
  destruct (key_cases (body_jobKey req)) as [Hk | [jobKey [Hkey Hne]]].
  { rewrite (@rank_without_key req db Hk). split; [discriminate | reflexivity]. }
  destruct (@rank_cases req db jobKey Hkey Hne)
    as [E | j js Ej Ep | j js evals Ej Ep Hn Hev | j js evals bad post e Ej Ep Hev Hbad];
    cbn [fst snd]; (split; [try discriminate | try reflexivity]).
  - intros _. exists jobKey. split; [assumption|].
    rewrite with_audit_log, Ep, length_map. cbn [store users audit_logs].
    destruct (existsb (Z.eqb (user_userId req)) (users db)) eqn:Eu.
    + split; [reflexivity|]. intros H. exfalso. apply H. now apply known_user_iff.
    + split; [|reflexivity]. intros H. apply known_user_iff in H. congruence.
  - intros H. exfalso. apply H. reflexivity.
Qed.

(** X5.  The endpoint has four status codes, and an answer in the 400s means
    that nothing at all was written. *)
Theorem rank_client_errors_write_nothing (req : Request) (db : Db) :
  In (status_code (fst (rank req db))) [200; 400; 404; 500] /\
  (400 <= status_code (fst (rank req db)) < 500 -> snd (rank req db) = db) /\
  (body_jobKey req = None \/ body_jobKey req = Some "" -> fst (rank req db) = key_required).
Proof.
  destruct (key_cases (body_jobKey req)) as [Hk | [jobKey [Hkey Hne]]].
  { rewrite (@rank_without_key req db Hk). simpl. repeat split; auto. }
  refine (conj _ (conj _ _)).
  - destruct (@rank_cases req db jobKey Hkey Hne); simpl; auto.
  - destruct (@rank_cases req db jobKey Hkey Hne); simpl; intros Hcode; try reflexivity; lia.
  - intros [H|H]; rewrite H in Hkey; [discriminate|]. injection Hkey as <-. congruence.
Qed.

(** X6.  A failed call is repeated by its retry: the application whose analysis
    throws stays first in the selection, so the next call with the same
    request fails in the same way and writes nothing more; the applications
    behind it are not reached. *)
Theorem rank_failure_repeats (req : Request) (db : Db) :
  NoDup (map id (applications db)) ->
  fst (rank req db) = failed ->
  rank req (snd (rank req db)) = (failed, snd (rank req db)).
Proof.
  intros Hnd Hres.
  destruct (key_cases (body_jobKey req)) as [Hk | [jobKey [Hkey Hne]]].
  { rewrite (@rank_without_key req db Hk) in Hres. discriminate. }
  destruct (@rank_cases req db jobKey Hkey Hne)
    as [E | j js Ej Ep | j js evals Ej Ep Hn Hev | j js evals bad post e Ej Ep Hev Hbad];
    cbn [fst snd] in *; try discriminate.
  assert (Hndp : NoDup (map id (map fst evals ++ bad :: post))).
  { rewrite <- Ep. now apply NoDup_ids_filter. }
  assert (Ep' : pending_rows jobKey (store evals db)
                = (map fst (@nil (Application * Analysis)) ++ bad :: post)%list).
  { unfold pending_rows. cbn [store applications map app]. rewrite pending_after_store.
    fold (pending_rows jobKey db). rewrite Ep, filter_app, eval_ids.
    rewrite filter_out_own_ids by (intros a Ha; now apply in_map).
    apply filter_keep_other_ids. intros a Ha. eapply NoDup_ids_split; eauto. }
  rewrite (@rank_aborted_eq req (store evals db) jobKey Hkey Hne j js [] bad post e
             Ej Ep' (Forall_nil _) Hbad).
  now rewrite store_nil.
Qed.

(* ================================================================== *)
(** * Further properties of the scoring function *)

Section ScoreFacts.

Lemma length_toLowerCase (s : string) : String.length (JS.toLowerCase s) = String.length s.
Proof. induction s as [|c s IH]; simpl; congruence. Qed.

Lemma length_string_app (s t : string) :
  String.length (s ++ t) = (String.length s + String.length t)%nat.
Proof. induction s as [|c s IH]; simpl; congruence. Qed.

Lemma includes_length (s n : string) :
  JS.includes s n = true -> (String.length n <= String.length s)%nat.
Proof.
  intros H. apply includes_iff in H. destruct H as [pre [post ->]].
  rewrite !length_string_app. lia.
Qed.

Lemma filter_length_mono {A : Type} (p q : A -> bool) (l : list A) :
  (forall x, p x = true -> q x = true) ->
  (List.length (filter p l) <= List.length (filter q l))%nat.
Proof.
  intros H. induction l as [|x l IH]; simpl; [lia|].
  destruct (p x) eqn:Ep.
  - rewrite (H x Ep). simpl. lia.
  - destruct (q x); simpl; lia.
Qed.

Lemma skill_matches_mono (s1 s2 : list string) (req : string) :
  incl s1 s2 -> skill_matches s1 req = true -> skill_matches s2 req = true.
Proof.
  unfold skill_matches. rewrite !existsb_exists.
  intros Hi [app [Hin H]]. exists app. split; [now apply Hi | assumption].
Qed.

Lemma total_by_parts (cv : CvContent) (job : JobDescription) :
  totalScore (analyze_locals cv job)
  = evaluateExperience cv job
    + Z.min 40 (Z.of_nat (List.length (filter (skill_matches (skills_of cv)) (requirements job))) * 8)
    + education_score cv
    + Z.min 20 (Z.of_nat (List.length (achievements_of cv)) * 4).
Proof. reflexivity. Qed.


End ScoreFacts.

(** X7.  Among skills and requirements written in ASCII, a requirement is
    matched only by a candidate skill at least as long as the requirement
    itself: the skill has to contain the requirement, not the other way
    round. *)
Theorem skill_match_needs_long_skill (applicantSkills : list string) (req : string) :
  ascii_text req ->
  Forall ascii_text applicantSkills ->
  skill_matches applicantSkills req = true ->
  exists app,
    In app applicantSkills /\ (JS.string_length req <= JS.string_length app)%nat.
Proof.
  intros Hreq Hskills. unfold skill_matches. rewrite existsb_exists. intros [app [Hin H]].
  exists app. split; [assumption|].
  rewrite Forall_forall in Hskills.
  rewrite (ascii_text_length Hreq), (ascii_text_length (Hskills app Hin)).
  apply includes_length in H. now rewrite !length_toLowerCase in H.
Qed.

(** X8.  More never scores less: a CV with the same experience and education,
    at least the same skills and at least as many achievements gets at least
    the same score for every job. *)
Theorem score_monotone (cv1 cv2 : CvContent) (job : JobDescription) :
  cv_experience cv1 = cv_experience cv2 ->
  cv_education cv1 = cv_education cv2 ->
  incl (skills_of cv1) (skills_of cv2) ->
  (List.length (achievements_of cv1) <= List.length (achievements_of cv2))%nat ->
  totalScore (analyze_locals cv1 job) <= totalScore (analyze_locals cv2 job).
Proof.
  intros Hx He Hs Ha. rewrite !total_by_parts.
  assert (E1 : evaluateExperience cv1 job = evaluateExperience cv2 job)
    by (unfold evaluateExperience; now rewrite Hx).
  assert (E2 : education_score cv1 = education_score cv2)
    by (unfold education_score, education_includes; now rewrite He).
  pose proof (filter_length_mono (skill_matches (skills_of cv1)) (skill_matches (skills_of cv2))
                (requirements job) (fun req => @skill_matches_mono _ _ req Hs)) as Hm.
  rewrite E1, E2. lia.
Qed.


(* ================================================================== *)
(** * Properties of the simulated CV extraction *)

Section Extraction.
Variables (pick roll : nat) (now fileBuffer fileName : string).

Lemma extracted_experience (job : JobDescription) :
  evaluateExperience (extractCVContent pick roll now fileBuffer fileName) job
  = tier (Z.of_nat (roll + 2)).
Proof.
  apply evaluateExperience_tier. cbn [extractCVContent cv_experience].
  apply (@years_written "" (roll + 2) " years"); [intros c [] | reflexivity].
Qed.

Lemma extracted_education :
  education_score (extractCVContent pick roll now fileBuffer fileName)
  = if (5 <? roll + 2)%nat then 15 else 10.
Proof.
  unfold education_score, education_includes. cbn [extractCVContent cv_education].
  destruct (5 <? roll + 2)%nat; reflexivity.
Qed.

Lemma extracted_total (job : JobDescription) :
  totalScore (analyze_locals (extractCVContent pick roll now fileBuffer fileName) job)
  = tier (Z.of_nat (roll + 2))
    + dim_skills (dimensionScores
                    (analyze_locals (extractCVContent pick roll now fileBuffer fileName) job))
    + (if (5 <? roll + 2)%nat then 15 else 10) + 16.
Proof.
  rewrite total_by_parts, extracted_experience, extracted_education. reflexivity.
Qed.

Lemma extracted_skills_unmatched (key : string) (reqs : list string) :
  In (key, reqs) default_requirements ->
  filter (skill_matches (skills_of (extractCVContent pick roll now fileBuffer fileName))) reqs
  = [].
Proof.
  unfold skills_of. cbn [extractCVContent cv_skills].
  intros Hin.
  destruct (JS.includes (JS.toLowerCase fileName) "senior");
    destruct pick as [|[|[|[|[|[|k]]]]]];
    cbn [nth skillSets];
    repeat (destruct Hin as [Hin|Hin]; [injection Hin as _ <-; vm_compute; reflexivity|]);
    destruct Hin.
Qed.

End Extraction.

(** X10.  Whatever the extraction draws, the CV it builds scores between 41 and
    96 for every job: its four achievements give 16, and experience and
    education go together, giving 25 for 2 or 3 years, 30 for 4 or 5 years
    and 40 from 6 years on. *)
Theorem extracted_cv_score (pick roll : nat) (now fileBuffer fileName : string)
    (job : JobDescription) :
  let cv := extractCVContent pick roll now fileBuffer fileName in
  let d := dimensionScores (analyze_locals cv job) in
  dim_achievements d = 16 /\
  dim_experience d + dim_education d
  = (if (roll <? 2)%nat then 25 else if (roll <? 4)%nat then 30 else 40) /\
  match analyzeApplication (Some cv) job with
  | Ok a => 41 <= score a <= 96
  | Throw _ => False
  end.
Proof.
  cbv zeta.
  assert (Hsum : tier (Z.of_nat (roll + 2)) + (if (5 <? roll + 2)%nat then 15 else 10)
                 = if (roll <? 2)%nat then 25 else if (roll <? 4)%nat then 30 else 40).
  { unfold tier.
    destruct (Nat.ltb_spec 5 (roll + 2)), (Nat.ltb_spec roll 2), (Nat.ltb_spec roll 4);
      repeat match goal with |- context [?a <=? ?b] => destruct (Z.leb_spec a b) end; lia. }
  refine (conj eq_refl (conj _ _)).
  - unfold analyze_locals. cbn [dimensionScores dim_experience dim_education].
    now rewrite extracted_experience, extracted_education.
  - unfold analyzeApplication. cbn [score]. rewrite extracted_total.
    unfold analyze_locals. cbn [dimensionScores dim_skills].
    destruct (roll <? 2)%nat, (roll <? 4)%nat; lia.
Qed.

(** X11.  For each of the five seeded jobs no extracted CV has a matching skill:
    every requirement of those jobs is a phrase longer than the skill names
    the extraction hands out.  The score is then 41, 46 or 56, decided by the
    drawn years of experience alone. *)
Theorem seeded_jobs_match_no_skill (key : string) (job : JobDescription)
    (pick roll : nat) (now fileBuffer fileName : string) :
  In (key, requirements job) default_requirements ->
  let cv := extractCVContent pick roll now fileBuffer fileName in
  matchedSkills (analyze_locals cv job) = [] /\
  match analyzeApplication (Some cv) job with
  | Ok a => score a = (if (roll <? 2)%nat then 41 else if (roll <? 4)%nat then 46 else 56)
  | Throw _ => False
  end.
Proof.
  intros Hin. cbv zeta.
  pose proof (@extracted_skills_unmatched pick roll now fileBuffer fileName key
                (requirements job) Hin) as Hm.
  split.
  - unfold analyze_locals. cbn [matchedSkills]. exact Hm.
  - unfold analyzeApplication. cbn [score]. rewrite extracted_total.
    unfold analyze_locals. cbn [dimensionScores dim_skills].
    fold (skills_of (extractCVContent pick roll now fileBuffer fileName)). rewrite Hm.
    unfold tier.
    destruct (Nat.ltb_spec 5 (roll + 2)), (Nat.ltb_spec roll 2), (Nat.ltb_spec roll 4);
      repeat match goal with |- context [?a <=? ?b] => destruct (Z.leb_spec a b) end;
      simpl; lia.
Qed.

(* ================================================================== *)
(** * Properties of the prototype server *)

Lemma by_explanation_length_key (a b : RankedCV) :
  by_explanation_length_desc a b
  = Z.of_nat (JS.string_length (rcv_explanation b))
    - Z.of_nat (JS.string_length (rcv_explanation a)).
Proof. reflexivity. Qed.

(** X12.  [rankCVs] returns one result per CV, the longest explanation first,
    and results whose explanations are equally long in the order of the CVs.
    The length is the number of UTF-16 code units: three for a word of three
    accented letters, which has six bytes, and two for a character outside
    the basic plane. *)
Theorem rankCVs_order (reply : string -> list ChatMessage -> string)
    (cvs : list UploadedCV) (jobDesc : string) :
  Permutation (rankCVs reply cvs jobDesc) (map (rank_one reply jobDesc) cvs) /\
  List.length (rankCVs reply cvs jobDesc) = List.length cvs /\
  StronglySorted
    (fun a b =>
       (JS.string_length (rcv_explanation b) <= JS.string_length (rcv_explanation a))%nat)
    (rankCVs reply cvs jobDesc) /\
  (forall n : nat,
      filter (fun r => (JS.string_length (rcv_explanation r) =? n)%nat)
        (rankCVs reply cvs jobDesc)
      = filter (fun r => (JS.string_length (rcv_explanation r) =? n)%nat)
          (map (rank_one reply jobDesc) cvs)) /\
  JS.string_length "abcd" = 4%nat /\
  JS.string_length "ééé" = 3%nat /\
  JS.string_length "😀" = 2%nat.
Proof.
  unfold rankCVs. set (l := map (rank_one reply jobDesc) cvs).
  set (key := fun r : RankedCV => Z.of_nat (JS.string_length (rcv_explanation r))).
  refine (conj (sort_perm _ l) (conj _ (conj _ (conj _ (conj eq_refl (conj eq_refl eq_refl)))))).
  - rewrite (Permutation_length (sort_perm _ l)). apply length_map.
  - pose proof (@sort_sorted _ key _ by_explanation_length_key l) as H.
    revert H. generalize (JS.sort by_explanation_length_desc l). intros sorted H.
    induction H as [|x t Hs IH Hall]; constructor; auto.
    eapply Forall_impl; [|exact Hall]. unfold key_desc, key. intros; lia.
  - intros n.
    pose proof (@sort_stable _ key _ by_explanation_length_key (Z.of_nat n) l) as H.
    assert (E : forall l', filter (has_key key (Z.of_nat n)) l'
                           = filter (fun r => (JS.string_length (rcv_explanation r) =? n)%nat) l').
    { intros l'. apply filter_ext. intros r. unfold has_key, key.
      destruct (Nat.eqb_spec (JS.string_length (rcv_explanation r)) n) as [->|Hne].
      - apply Z.eqb_refl.
      - apply Z.eqb_neq. lia. }
    now rewrite !E in H.
Qed.

Lemma upload_appends (files : list MulterFile) :
  forall store,
    upload files store
    = (store ++ map (fun file => {| filename := originalname file; content := file_text file |})
                  files)%list.
Proof.
  unfold upload. induction files as [|f files IH]; intros store; simpl.
  - now rewrite app_nil_r.
  - rewrite IH, <- app_assoc. reflexivity.
Qed.

Lemma serve_all (requests : list PrototypeRequest) :
  forall store,
    fold_left serve requests store = (store ++ List.concat (map uploaded_by requests))%list.
Proof.
  induction requests as [|r requests IH]; intros store; simpl.
  - now rewrite app_nil_r.
  - rewrite IH. destruct r as [files|job]; simpl.
    + now rewrite upload_appends, <- app_assoc.
    + reflexivity.
Qed.

(** X15.  The prototype never forgets a CV: after any sequence of uploads and
    rankings the store holds every CV uploaded so far, in order of upload,
    and a ranking returns one result for each of them, with its file name
    and text. *)
Theorem prototype_store_only_grows (reply : string -> list ChatMessage -> string)
    (requests : list PrototypeRequest) (store : list UploadedCV) (job_description : string) :
  let final := fold_left serve requests store in
  final = (store ++ List.concat (map uploaded_by requests))%list /\
  List.length (rank_route reply job_description final)
  = (List.length store + List.length (List.concat (map uploaded_by requests)))%nat /\
  (forall cv, In cv final ->
     exists r, In r (rank_route reply job_description final) /\
               rcv_filename r = filename cv /\ rcv_content r = content cv).
Proof.
  cbv zeta. rewrite serve_all. refine (conj eq_refl (conj _ _)).
  - unfold rank_route, rankCVs.
    rewrite (Permutation_length (sort_perm _ _)), length_map, length_app. reflexivity.
  - intros cv Hin. exists (rank_one reply job_description cv). split; [|split; reflexivity].
    unfold rank_route, rankCVs.
    apply (Permutation_in _ (Permutation_sym (sort_perm _ _))). now apply in_map.
Qed.

(* ================================================================== *)
(** * Properties of the token middleware *)

Section TextFacts.

Lemma string_app_assoc (a b c : string) : (a ++ b) ++ c = a ++ b ++ c.
Proof. induction a as [|x a IH]; simpl; congruence. Qed.

Lemma string_app_nil_r (a : string) : a ++ "" = a.
Proof. induction a as [|x a IH]; simpl; congruence. Qed.

Lemma all_chars_nil (p : ascii -> bool) : all_chars p "".
Proof. intros c []. Qed.

Lemma all_chars_cons (p : ascii -> bool) (c : ascii) (s : string) :
  all_chars p (String c s) <-> p c = true /\ all_chars p s.
Proof.
  unfold all_chars. simpl. split.
  - intros H. split; [apply H; now left | intros d Hd; apply H; now right].
  - intros [Hc Hs] d [<-|Hd]; auto.
Qed.

Lemma all_chars_app (p : ascii -> bool) (a b : string) :
  all_chars p (a ++ b) <-> all_chars p a /\ all_chars p b.
Proof.
  induction a as [|x a IH]; simpl.
  - split; [intros H; split; [apply all_chars_nil | assumption] | tauto].
  - rewrite !all_chars_cons, IH. tauto.
Qed.

Lemma split_space_field (t : string) : no_space t -> split_space t = [t].
Proof.
  induction t as [|c t IH]; intros H; [reflexivity|].
  apply all_chars_cons in H. destruct H as [Hc Ht]. simpl.
  apply negb_true_iff in Hc. rewrite Hc, (IH Ht). reflexivity.
Qed.

Lemma split_space_app (a b : string) :
  no_space a -> split_space (a ++ " " ++ b) = a :: split_space b.
Proof.
  induction a as [|c a IH]; intros H; [reflexivity|].
  apply all_chars_cons in H. destruct H as [Hc Ha].
  cbn [append split_space]. apply negb_true_iff in Hc. rewrite Hc.
  change (a ++ String " " b) with (a ++ " " ++ b). now rewrite (IH Ha).
Qed.

End TextFacts.

(** X16.  The middleware reads the text between the first and the second space
    of the header and nothing else: the word in front of it and whatever
    follows it do not matter.  An empty token is answered 401, a token that
    [jwt.verify] refuses 403, and a token it accepts lets the request through
    with the verified payload.  A header that is missing or has no space is
    answered 401. *)
Theorem authenticateToken_reads_second_field (verify : string -> option TokenUser)
    (scheme token rest : string) :
  no_space scheme -> no_space token ->
  (rest = "" \/ exists more, rest = " " ++ more) ->
  authenticateToken verify (Some (scheme ++ " " ++ token ++ rest))
  = (if String.eqb token "" then AuthAnswer 401 "Access token required"
     else match verify token with
          | Some user => AuthNext user
          | None => AuthAnswer 403 "Invalid or expired token"
          end) /\
  authenticateToken verify (Some scheme) = AuthAnswer 401 "Access token required" /\
  authenticateToken verify None = AuthAnswer 401 "Access token required".
Proof.
  intros Hs Ht Hr.
  assert (Hfield : nth_error (split_space (scheme ++ " " ++ token ++ rest)) 1 = Some token).
  { rewrite (split_space_app _ Hs). cbn [nth_error].
    destruct Hr as [-> | [more ->]].
    - now rewrite string_app_nil_r, (split_space_field Ht).
    - now rewrite (split_space_app _ Ht). }
  refine (conj _ (conj _ eq_refl)).
  - unfold authenticateToken.
    replace (match scheme ++ " " ++ token ++ rest with
             | "" => Some ""
             | String _ _ => nth_error (split_space (scheme ++ " " ++ token ++ rest)) 1
             end) with (Some token)
      by (rewrite <- Hfield; destruct scheme; reflexivity).
    destruct token; reflexivity.
  - unfold authenticateToken. destruct scheme as [|c s]; [reflexivity|].
    now rewrite (split_space_field Hs).
Qed.

(* ================================================================== *)
(** * Properties of [extractEmail] *)

Section ExtractEmail.

Lemma letter_run_split (s : string) :
  exists rest, s = JS.letter_run s ++ rest /\ all_chars JS.is_letter (JS.letter_run s).
Proof.
  induction s as [|c s [rest [Hs Hl]]]; simpl.
  - exists "". split; [reflexivity | apply all_chars_nil].
  - destruct (JS.is_letter c) eqn:Ec.
    + exists rest. split; [simpl; congruence | now apply all_chars_cons].
    + exists (String c s). split; [reflexivity | apply all_chars_nil].
Qed.

Lemma letter_run_app (t post : string) :
  all_chars JS.is_letter t -> JS.letter_run (t ++ post) = t ++ JS.letter_run post.
Proof.
  induction t as [|c t IH]; intros H; [reflexivity|].
  apply all_chars_cons in H. destruct H as [Hc Ht]. simpl. now rewrite Hc, (IH Ht).
Qed.

Lemma match_tld_sound (s m : string) :
  JS.match_tld s = Some m ->
  exists t rest,
    m = "." ++ t /\ s = m ++ rest /\ all_chars JS.is_letter t /\ (2 <= String.length t)%nat.
Proof.
  destruct s as [|c s]; unfold JS.match_tld; [discriminate|].
  destruct (Ascii.eqb_spec c "."); [subst c | discriminate].
  destruct (Nat.leb_spec 2 (String.length (JS.letter_run s))) as [Hlen|]; [|discriminate].
  intros [= <-]. destruct (letter_run_split s) as [rest [Hs Hl]].
  exists (JS.letter_run s), rest. repeat split; auto. simpl. congruence.
Qed.

Lemma match_domain_more_sound (s : string) :
  forall m,
    JS.match_domain_more s = Some m ->
    exists d t rest,
      m = d ++ "." ++ t /\ s = m ++ rest /\ all_chars JS.is_domain d /\
      all_chars JS.is_letter t /\ (2 <= String.length t)%nat.
Proof.
  induction s as [|c s IH]; intros m; [discriminate|].
  assert (Htld : JS.match_tld (String c s) = Some m ->
                 exists d t rest,
                   m = d ++ "." ++ t /\ String c s = m ++ rest /\ all_chars JS.is_domain d /\
                   all_chars JS.is_letter t /\ (2 <= String.length t)%nat).
  { intros H. apply match_tld_sound in H. destruct H as (t & rest & Hm & Hs & Hl & Hn).
    exists "", t, rest. repeat split; auto. apply all_chars_nil. }
  cbn [JS.match_domain_more]. destruct (JS.is_domain c) eqn:Ec; [|exact Htld].
  destruct (JS.match_domain_more s) as [m'|] eqn:Er; [|exact Htld].
  intros [= <-]. destruct (IH m' eq_refl) as (d & t & rest & Hm & Hs & Hd & Hl & Hn).
  exists (String c d), t, rest. subst m'. repeat split; auto.
  - simpl in Hs |- *. congruence.
  - now apply all_chars_cons.
Qed.

Lemma match_at_sign_sound (s m : string) :
  JS.match_at_sign s = Some m ->
  exists d t rest,
    m = "@" ++ d ++ "." ++ t /\ s = m ++ rest /\ d <> "" /\ all_chars JS.is_domain d /\
    all_chars JS.is_letter t /\ (2 <= String.length t)%nat.
Proof.
  destruct s as [|c s]; simpl; [discriminate|].
  destruct (Ascii.eqb_spec c "@"); [subst c | discriminate].
  destruct s as [|c' s]; simpl; [discriminate|].
  destruct (JS.is_domain c') eqn:Ec; [|discriminate].
  destruct (JS.match_domain_more s) as [m'|] eqn:Er; [|discriminate].
  simpl. intros [= <-].
  destruct (match_domain_more_sound s Er) as (d & t & rest & Hm & Hs & Hd & Hl & Hn).
  exists (String c' d), t, rest. subst m'. repeat split; auto.
  - simpl in Hs |- *. congruence.
  - discriminate.
  - now apply all_chars_cons.
Qed.

Lemma match_local_more_sound (s : string) :
  forall m,
    JS.match_local_more s = Some m ->
    exists l d t rest,
      m = l ++ "@" ++ d ++ "." ++ t /\ s = m ++ rest /\ all_chars JS.is_local l /\
      d <> "" /\ all_chars JS.is_domain d /\
      all_chars JS.is_letter t /\ (2 <= String.length t)%nat.
Proof.
  induction s as [|c s IH]; intros m; [discriminate|].
  assert (Hat : JS.match_at_sign (String c s) = Some m ->
                exists l d t rest,
                  m = l ++ "@" ++ d ++ "." ++ t /\ String c s = m ++ rest /\
                  all_chars JS.is_local l /\ d <> "" /\ all_chars JS.is_domain d /\
                  all_chars JS.is_letter t /\ (2 <= String.length t)%nat).
  { intros H. apply match_at_sign_sound in H.
    destruct H as (d & t & rest & Hm & Hs & Hne & Hd & Hl & Hn).
    exists "", d, t, rest. repeat split; auto. apply all_chars_nil. }
  cbn [JS.match_local_more]. destruct (JS.is_local c) eqn:Ec; [|exact Hat].
  destruct (JS.match_local_more s) as [m'|] eqn:Er; [|exact Hat].
  intros [= <-].
  destruct (IH m' eq_refl) as (l & d & t & rest & Hm & Hs & Hl & Hne & Hd & Ht & Hn).
  exists (String c l), d, t, rest. subst m'. repeat split; auto.
  - simpl in Hs |- *. congruence.
  - now apply all_chars_cons.
Qed.

Lemma match_email_here_sound (s m : string) :
  JS.match_email_here s = Some m -> address_shaped m /\ exists rest, s = m ++ rest.
Proof.
  destruct s as [|c s]; simpl; [discriminate|].
  destruct (JS.is_local c) eqn:Ec; [|discriminate].
  destruct (JS.match_local_more s) as [m'|] eqn:Er; [|discriminate].
  simpl. intros [= <-].
  destruct (match_local_more_sound s Er) as (l & d & t & rest & Hm & Hs & Hl & Hne & Hd & Ht & Hn).
  subst m'. split.
  - exists (String c l), d, t. repeat split; auto; [discriminate | now apply all_chars_cons].
  - exists rest. simpl in Hs |- *. congruence.
Qed.

Lemma match_email_unfold (s : string) :
  JS.match_email s
  = match JS.match_email_here s with
    | Some m => Some m
    | None => match s with
              | EmptyString => None
              | String _ t => JS.match_email t
              end
    end.
Proof. destruct s; reflexivity. Qed.

Lemma match_email_sound (s : string) :
  forall m, JS.match_email s = Some m -> address_shaped m /\ occurs_in m s.
Proof.
  induction s as [|c s IH]; intros m; rewrite match_email_unfold.
  - simpl. discriminate.
  - destruct (JS.match_email_here (String c s)) as [m'|] eqn:Eh.
    + intros [= <-]. apply match_email_here_sound in Eh. destruct Eh as [Hsh [rest Hs]].
      split; [assumption|]. exists "", rest. exact Hs.
    + intros H. destruct (IH m H) as [Hsh [pre [post Hs]]].
      split; [assumption|]. exists (String c pre), post. simpl in Hs |- *. congruence.
Qed.

(** The other direction: where an address stands, the pattern matches. *)

Lemma match_tld_complete (t post : string) :
  all_chars JS.is_letter t -> (2 <= String.length t)%nat ->
  JS.match_tld ("." ++ t ++ post) <> None.
Proof.
  intros Hl Hn. change ("." ++ t ++ post) with (String "." (t ++ post)).
  unfold JS.match_tld. change (Ascii.eqb "." ".") with true. cbv iota.
  rewrite (letter_run_app post Hl), length_string_app.
  destruct (Nat.leb_spec 2 (String.length t + String.length (JS.letter_run post))) as [_|H];
    [discriminate | lia].
Qed.

Lemma match_domain_more_complete (d t post : string) :
  all_chars JS.is_domain d -> all_chars JS.is_letter t -> (2 <= String.length t)%nat ->
  JS.match_domain_more (d ++ "." ++ t ++ post) <> None.
Proof.
  intros Hd Hl Hn. induction d as [|c d IH].
  - change ("" ++ "." ++ t ++ post) with (String "." (t ++ post)).
    cbn [JS.match_domain_more].
    destruct (if JS.is_domain "." then JS.match_domain_more (t ++ post) else None);
      [discriminate|].
    now apply (match_tld_complete post).
  - apply all_chars_cons in Hd. destruct Hd as [Hc Hd].
    cbn [append JS.match_domain_more]. rewrite Hc.
    match goal with
    | |- context [JS.match_domain_more ?x] => destruct (JS.match_domain_more x) eqn:E
    end; [discriminate|].
    exfalso. first [exact (IH Hd E) | apply (IH Hd); reflexivity].
Qed.

Lemma match_local_more_complete (l d t post : string) :
  all_chars JS.is_local l -> d <> "" -> all_chars JS.is_domain d ->
  all_chars JS.is_letter t -> (2 <= String.length t)%nat ->
  JS.match_local_more (l ++ "@" ++ d ++ "." ++ t ++ post) <> None.
Proof.
  intros Hl Hne Hd Ht Hn. induction l as [|c l IH].
  - destruct d as [|c d]; [congruence|].
    apply all_chars_cons in Hd. destruct Hd as [Hc Hd].
    pose proof (match_domain_more_complete post Hd Ht Hn) as Hm.
    change ("" ++ "@" ++ String c d ++ "." ++ t ++ post)
      with (String "@" (String c (d ++ "." ++ t ++ post))).
    cbn [JS.match_local_more].
    change (JS.is_local "@") with false. cbv iota.
    cbn [JS.match_at_sign JS.match_domain]. change (Ascii.eqb "@" "@") with true. cbv iota.
    rewrite Hc.
    match goal with
    | |- context [JS.match_domain_more ?x] => destruct (JS.match_domain_more x) eqn:E
    end; [discriminate|].
    exfalso. first [exact (Hm E) | apply Hm; reflexivity].
  - apply all_chars_cons in Hl. destruct Hl as [Hc Hl].
    cbn [append JS.match_local_more]. rewrite Hc.
    match goal with
    | |- context [JS.match_local_more ?x] => destruct (JS.match_local_more x) eqn:E
    end; [discriminate|].
    exfalso. first [exact (IH Hl E) | apply (IH Hl); reflexivity].
Qed.

Lemma match_email_here_complete (m post : string) :
  address_shaped m -> JS.match_email_here (m ++ post) <> None.
Proof.
  intros (l & d & t & -> & Hne & Hl & Hd & Hdd & Ht & Hn).
  destruct l as [|c l]; [congruence|].
  apply all_chars_cons in Hl. destruct Hl as [Hc Hl].
  rewrite !string_app_assoc. cbn [append JS.match_email_here]. rewrite Hc.
  pose proof (match_local_more_complete post Hl Hd Hdd Ht Hn) as H.
  match goal with
  | |- context [JS.match_local_more ?x] => destruct (JS.match_local_more x) eqn:E
  end; [discriminate|].
  exfalso. first [exact (H E) | apply H; reflexivity].
Qed.

Lemma match_email_complete (pre m post : string) :
  address_shaped m -> JS.match_email (pre ++ m ++ post) <> None.
Proof.
  intros Hm. induction pre as [|c pre IH]; rewrite match_email_unfold.
  - pose proof (match_email_here_complete post Hm) as H. simpl.
    destruct (JS.match_email_here (m ++ post)); [discriminate | congruence].
  - destruct (JS.match_email_here (String c pre ++ m ++ post)); [discriminate|].
    exact IH.
Qed.

Lemma fallback_shaped : address_shaped "unknown@example.com".
Proof.
  exists "unknown", "example", "com".
  repeat split; try discriminate; try (simpl; lia);
    intros c H; simpl in H;
    repeat (destruct H as [<-|H]; [reflexivity|]); destruct H.
Qed.

End ExtractEmail.

(** X14.  [extractEmail] always returns something made like an address.  When the
    text holds such a substring anywhere, the result is one of them, taken
    from the text; when it holds none, and only then, the result is the
    fallback unknown@example.com by default. *)
Theorem extractEmail_finds_address (text : string) :
  address_shaped (extractEmail text) /\
  ((exists m, address_shaped m /\ occurs_in m text) ->
   JS.match_email text = Some (extractEmail text) /\ occurs_in (extractEmail text) text) /\
  (~ (exists m, address_shaped m /\ occurs_in m text) ->
   JS.match_email text = None /\ extractEmail text = "unknown@example.com").
Proof.
  unfold extractEmail. destruct (JS.match_email text) as [m|] eqn:E.
  - destruct (match_email_sound text E) as [Hsh Hocc].
    refine (conj Hsh (conj (fun _ => conj eq_refl Hocc) _)).
    intros H. exfalso. apply H. now exists m.
  - refine (conj fallback_shaped (conj _ (fun _ => conj eq_refl eq_refl))).
    intros [m [Hsh [pre [post Hs]]]]. exfalso. subst text.
    now apply (match_email_complete pre post Hsh).
Qed.

(* ================================================================== *)
(** * Properties of the address check *)

Section AddressCheck.
Import Validation.

Lemma chars_to_end_iff (s : list N) : chars_to_end s = true <-> address_units s.
Proof.
  unfold address_units. induction s as [|c s IH]; simpl.
  - split; [intros _; constructor | reflexivity].
  - rewrite andb_true_iff, Forall_cons_iff, IH. tauto.
Qed.

Lemma match_dot_iff (s : list N) :
  match_dot s = true <->
  exists t, s = ([dot] ++ t)%list /\ t <> [] /\ address_units t.
Proof.
  split.
  - destruct s as [|c [|c' s]]; simpl; try discriminate.
    rewrite !andb_true_iff. intros [[Hc Hc'] Hs].
    apply N.eqb_eq in Hc. subst c. exists (c' :: s).
    repeat split; [discriminate|]. constructor; [assumption|].
    now apply chars_to_end_iff.
  - intros [t [-> [Hne Ht]]]. destruct t as [|c' t]; [congruence|].
    inversion Ht as [|x xs Hc' Ht']; subst. simpl.
    rewrite Hc'. now apply chars_to_end_iff.
Qed.

Lemma match_domain_more_iff (s : list N) :
  match_domain_more s = true <->
  exists d t,
    s = (d ++ [dot] ++ t)%list /\ address_units d /\ t <> [] /\ address_units t.
Proof.
  split.
  - induction s as [|c s IH]; [discriminate|].
    cbn [match_domain_more]. rewrite orb_true_iff, andb_true_iff.
    intros [[Hc Hr] | Hdot].
    + destruct (IH Hr) as (d & t & -> & Hd & Hne & Ht).
      exists (c :: d), t. repeat split; auto. now constructor.
    + apply match_dot_iff in Hdot. destruct Hdot as (t & Hs & Hne & Ht).
      exists [], t. repeat split; auto. constructor.
  - intros (d & t & -> & Hd & Hne & Ht). induction d as [|c d IH].
    + cbn [app match_domain_more].
      apply orb_true_iff. right. apply match_dot_iff. now exists t.
    + inversion Hd as [|x xs Hc Hd']; subst.
      cbn [app match_domain_more]. rewrite Hc.
      apply orb_true_iff. left. exact (IH Hd').
Qed.

Lemma match_at_sign_iff (s : list N) :
  match_at_sign s = true <->
  exists d t,
    s = ([at_sign] ++ d ++ [dot] ++ t)%list /\ d <> [] /\ address_units d /\
    t <> [] /\ address_units t.
Proof.
  split.
  - destruct s as [|c [|c' s]]; simpl; try discriminate.
    { rewrite andb_false_r. discriminate. }
    rewrite !andb_true_iff. intros [Hc [Hc' Hr]].
    apply N.eqb_eq in Hc. subst c.
    apply match_domain_more_iff in Hr. destruct Hr as (d & t & -> & Hd & Hne & Ht).
    exists (c' :: d), t. repeat split; auto; [discriminate | now constructor].
  - intros (d & t & -> & Hne & Hd & Hnt & Ht). destruct d as [|c' d]; [congruence|].
    inversion Hd as [|x xs Hc' Hd']; subst.
    cbn [app match_at_sign match_domain]. rewrite Hc'. simpl.
    apply match_domain_more_iff. now exists d, t.
Qed.

Lemma match_local_more_iff (s : list N) :
  match_local_more s = true <->
  exists l d t,
    s = (l ++ [at_sign] ++ d ++ [dot] ++ t)%list /\ address_units l /\
    d <> [] /\ address_units d /\
    t <> [] /\ address_units t.
Proof.
  split.
  - induction s as [|c s IH]; [discriminate|].
    cbn [match_local_more]. rewrite orb_true_iff, andb_true_iff.
    intros [[Hc Hr] | Hat].
    + destruct (IH Hr) as (l & d & t & -> & Hl & Hne & Hd & Hnt & Ht).
      exists (c :: l), d, t. repeat split; auto. now constructor.
    + apply match_at_sign_iff in Hat. destruct Hat as (d & t & Hs & Hne & Hd & Hnt & Ht).
      exists [], d, t. repeat split; auto. constructor.
  - intros (l & d & t & -> & Hl & Hne & Hd & Hnt & Ht). induction l as [|c l IH].
    + cbn [app match_local_more]. apply orb_true_iff. right.
      apply match_at_sign_iff. now exists d, t.
    + inversion Hl as [|x xs Hc Hl']; subst.
      cbn [app match_local_more]. rewrite Hc.
      apply orb_true_iff. left. exact (IH Hl').
Qed.

Lemma match_address_iff (s : list N) :
  match_address s = true <->
  exists l d t,
    s = (l ++ [at_sign] ++ d ++ [dot] ++ t)%list /\
    l <> [] /\ address_units l /\
    d <> [] /\ address_units d /\
    t <> [] /\ address_units t.
Proof.
  split.
  - destruct s as [|c s]; simpl; [discriminate|].
    rewrite andb_true_iff. intros [Hc Hr].
    apply match_local_more_iff in Hr.
    destruct Hr as (l & d & t & -> & Hl & Hne & Hd & Hnt & Ht).
    exists (c :: l), d, t. repeat split; auto; [discriminate | now constructor].
  - intros (l & d & t & -> & Hne & Hl & Hnd & Hd & Hnt & Ht).
    destruct l as [|c l]; [congruence|].
    inversion Hl as [|x xs Hc Hl']; subst.
    cbn [app match_address]. rewrite Hc. simpl.
    apply match_local_more_iff. now exists l, d, t.
Qed.

End AddressCheck.

(** X17.  The address check of the registration and submission endpoints accepts
    exactly the texts made of a non-empty local part, one at sign, and a
    domain in which some dot has a non-empty text on either side, with no
    white space and no further at sign anywhere.  White space is that of
    the regular expression: a no-break space makes an address fail as a
    space does. *)
Theorem emailRegex_accepts (email : string) :
  (Validation.emailRegex_test email = true <-> address_like email) /\
  Validation.emailRegex_test "a@b.c" = true /\
  Validation.emailRegex_test "é@b.c" = true /\
  Validation.emailRegex_test "a b@c.de" = false /\
  Validation.emailRegex_test ("a" ++ no_break_space ++ "b@c.de") = false /\
  Validation.emailRegex_test "a@b@c.de" = false /\
  Validation.emailRegex_test "a@b" = false.
Proof.
  split; [|repeat split].
  unfold address_like, Validation.emailRegex_test. apply match_address_iff.
Qed.

(* ================================================================== *)
(** * Runs of the further properties *)

Lemma rank_stores_returned_scores_witness :
  exists a,
    In a (applications (snd (rank recruiter_request db_tie))) /\
    id a = 2 /\ ai_score a = Some 63 /\ ai_explanation a = Some explanation_63.
Proof.
  destruct (@rank_stores_returned_scores recruiter_request db_tie true tie_entries
              "2 applications ranked successfully" db_tie_ids_distinct eq_refl
              {| ra_id := 2; ra_anonymized_id := "APP_BBB222"; ra_score := 63;
                 ra_explanation := explanation_63 |} (or_introl eq_refl))
    as [a (Hin & Hid & _ & Hs & He)].
  exists a. exact (conj Hin (conj Hid (conj Hs He))).
Defined.

Lemma rank_answer_entries_witness :
  List.length tie_entries = List.length (pending_rows "dev" db_tie) /\
  tie_entries <> [].
Proof.
  destruct (@rank_answer_entries recruiter_request db_tie "dev" true tie_entries
              "2 applications ranked successfully" eq_refl eq_refl)
    as (_ & Hne & Hlen & _).
  exact (conj Hlen Hne).
Defined.

Lemma rank_failure_repeats_witness :
  fst (rank recruiter_request db_broken_cv) = failed /\
  rank recruiter_request (snd (rank recruiter_request db_broken_cv))
  = (failed, snd (rank recruiter_request db_broken_cv)).
Proof.
  split; [reflexivity|].
  exact (@rank_failure_repeats recruiter_request db_broken_cv db_broken_ids_distinct eq_refl).
Defined.

(** A ranking asked for by a user the database does not know is stored and
    answered like any other, and leaves no audit row. *)
Lemma rank_by_stranger_is_not_logged :
  fst (rank stranger_request db_tie) = fst (rank recruiter_request db_tie) /\
  applications (snd (rank stranger_request db_tie))
  = applications (snd (rank recruiter_request db_tie)) /\
  audit_logs (snd (rank stranger_request db_tie)) = [] /\
  audit_logs (snd (rank recruiter_request db_tie)) = [rank_audit_row recruiter_request "dev" 2].
Proof. vm_compute. repeat split. Qed.

Lemma skill_match_needs_long_skill_witness :
  ascii_text "SQL" /\
  Forall ascii_text ["postgresql"; "docker"] /\
  skill_matches ["postgresql"; "docker"] "SQL" = true /\
  exists app,
    In app ["postgresql"; "docker"] /\ (JS.string_length "SQL" <= JS.string_length app)%nat.
Proof.
  assert (H1 : ascii_text "SQL") by reflexivity.
  assert (H2 : Forall ascii_text ["postgresql"; "docker"]) by (repeat constructor).
  exact (conj H1 (conj H2 (conj eq_refl
           (@skill_match_needs_long_skill ["postgresql"; "docker"] "SQL" H1 H2 eq_refl)))).
Defined.

Lemma junior_skills_included : incl ["sql"] ["sql"; "javascript"].
Proof. intros x [<-|[]]. now left. Qed.

Lemma score_monotone_witness :
  totalScore (analyze_locals (junior_cv ["sql"] ["a"]) (dev_job true))
  <= totalScore (analyze_locals (junior_cv ["sql"; "javascript"] ["a"; "b"]) (dev_job true)).
Proof.
  apply (@score_monotone (junior_cv ["sql"] ["a"]) (junior_cv ["sql"; "javascript"] ["a"; "b"])
           (dev_job true) eq_refl eq_refl junior_skills_included).
  simpl. lia.
Defined.

Lemma seeded_jobs_match_no_skill_witness :
  matchedSkills
    (analyze_locals
       (extractCVContent 3 4 "2024-01-01T00:00:00.000Z" "" "senior_data_scientist.pdf")
       (any_job ["Masters in Data Science/Statistics"; "Python/R programming";
                 "Machine learning expertise"; "SQL proficiency"; "Data visualization tools"]))
  = [].
Proof.
  exact (proj1 (@seeded_jobs_match_no_skill "data-scientist"
                  (any_job ["Masters in Data Science/Statistics"; "Python/R programming";
                            "Machine learning expertise"; "SQL proficiency";
                            "Data visualization tools"])
                  3 4 "2024-01-01T00:00:00.000Z" "" "senior_data_scientist.pdf"
                  (or_intror (or_introl eq_refl)))).
Defined.

Lemma bearer_no_space : no_space "Bearer".
Proof. intros c H. simpl in H. repeat (destruct H as [<-|H]; [reflexivity|]). destruct H. Qed.

Lemma sample_token_no_space : no_space "abc.def.ghi".
Proof. intros c H. simpl in H. repeat (destruct H as [<-|H]; [reflexivity|]). destruct H. Qed.

Lemma authenticateToken_reads_second_field_witness :
  authenticateToken sample_verify (Some "Bearer abc.def.ghi") = AuthNext sample_user /\
  authenticateToken sample_verify (Some "Bearer") = AuthAnswer 401 "Access token required".
Proof.
  destruct (@authenticateToken_reads_second_field sample_verify "Bearer" "abc.def.ghi" ""
              bearer_no_space sample_token_no_space (or_introl eq_refl))
    as (H1 & H2 & _).
  exact (conj H1 H2).
Defined.

Lemma rankCVs_carries_contact_witness :
  exists cv,
    In cv [jane_upload] /\
    rcv_email (rank_one canned_reply "Developer" jane_upload) = extractEmail (content cv).
Proof.
  destruct (@rankCVs_carries_contact canned_reply [jane_upload] "Developer"
              (rank_one canned_reply "Developer" jane_upload) (or_introl eq_refl))
    as [cv (Hin & _ & _ & He & _)].
  exists cv. exact (conj Hin He).
Defined.

(* ================================================================== *)
(** * Properties of the submission endpoint *)

Section SubmissionFacts.
Import Validation.

Lemma same_class_refl (u : N) : same_class u u.
Proof. repeat split. Qed.

Lemma lower_byte_low (c : ascii) :
  (JS.byte c <? 128)%N = true ->
  (JS.byte (JS.lower_char c) <? 128)%N = true /\
  same_class (JS.byte (JS.lower_char c)) (JS.byte c).
Proof.
  destruct c as [[] [] [] [] [] [] [] []]; vm_compute; intros H;
    try discriminate H; repeat split.
Qed.

Lemma lower_byte_high (c : ascii) :
  (JS.byte c <? 128)%N = false ->
  JS.lower_char c = c /\ JS.continuation (JS.lower_char c) = JS.continuation c.
Proof.
  destruct c as [[] [] [] [] [] [] [] []]; vm_compute; intros H;
    try discriminate H; repeat split.
Qed.

Lemma lower_continuation (c : ascii) :
  JS.continuation (JS.lower_char c) = JS.continuation c /\
  (JS.continuation c = true -> JS.lower_char c = c).
Proof.
  destruct c as [[] [] [] [] [] [] [] []]; vm_compute; split; intros;
    try discriminate; reflexivity.
Qed.

Lemma code_units_lead (b0 : ascii) (t0 : string) :
  (JS.byte b0 <? 128)%N = false ->
  JS.code_units (String b0 t0) =
        match t0 with
        | String b1 t1 =>
            if (192 <=? JS.byte b0)%N && (JS.byte b0 <? 224)%N && JS.continuation b1 then
              ((JS.byte b0 - 192) * 64 + JS.low6 b1)%N :: JS.code_units t1
            else
              match t1 with
              | String b2 t2 =>
                  if (224 <=? JS.byte b0)%N && (JS.byte b0 <? 240)%N
                     && JS.continuation b1 && JS.continuation b2 then
                    ((JS.byte b0 - 224) * 4096 + JS.low6 b1 * 64 + JS.low6 b2)%N :: JS.code_units t2
                  else
                    match t2 with
                    | String b3 t3 =>
                        if (240 <=? JS.byte b0)%N
                           && JS.continuation b1 && JS.continuation b2 && JS.continuation b3 then
                          let point :=
                            ((JS.byte b0 - 240) * 262144 + JS.low6 b1 * 4096
                             + JS.low6 b2 * 64 + JS.low6 b3)%N in
                          (55296 + (point - 65536) / 1024)%N
                            :: (56320 + (point - 65536) mod 1024)%N :: JS.code_units t3
                        else 65533%N :: JS.code_units t0
                    | EmptyString => 65533%N :: JS.code_units t0
                    end
              | EmptyString => 65533%N :: JS.code_units t0
              end
        | EmptyString => [65533%N]
        end.
Proof.
  intros H. cbn [JS.code_units]. rewrite H.
  destruct t0 as [|b1 [|b2 [|b3 t3]]]; reflexivity.
Qed.

Lemma code_units_lower_bounded (n : nat) :
  forall s, (String.length s <= n)%nat ->
    Forall2 same_class (JS.code_units (JS.toLowerCase s)) (JS.code_units s).
Proof.
  induction n as [|n IH]; intros s Hn.
  { destruct s; [constructor | simpl in Hn; lia]. }
  destruct s as [|b0 t0]; [constructor|]. simpl in Hn.
  pose proof (IH t0 ltac:(lia)) as IH0.
  cbn [JS.toLowerCase].
  destruct (JS.byte b0 <? 128)%N eqn:E0.
  - destruct (lower_byte_low b0 E0) as [E0' Hc].
    cbn [JS.code_units]. rewrite E0, E0'. now constructor.
  - rewrite (proj1 (lower_byte_high b0 E0)).
    rewrite (code_units_lead b0 (JS.toLowerCase t0) E0), (code_units_lead b0 t0 E0).
    destruct t0 as [|b1 t1]; cbn [JS.toLowerCase] in *; [repeat constructor|].
    simpl in Hn. pose proof (IH t1 ltac:(lia)) as IH1.
    destruct (lower_continuation b1) as [C1 K1]. rewrite C1.
    destruct (JS.continuation b1) eqn:B1.
    + rewrite (K1 eq_refl) in *.
      destruct ((192 <=? JS.byte b0)%N && (JS.byte b0 <? 224)%N); cbn [andb].
      { constructor; [apply same_class_refl | assumption]. }
      destruct t1 as [|b2 t2]; cbn [JS.toLowerCase] in *;
        [constructor; [apply same_class_refl | assumption]|].
      simpl in Hn. pose proof (IH t2 ltac:(lia)) as IH2.
      destruct (lower_continuation b2) as [C2 K2]. rewrite C2.
      destruct (JS.continuation b2) eqn:B2.
      * rewrite (K2 eq_refl) in *.
        destruct ((224 <=? JS.byte b0)%N && (JS.byte b0 <? 240)%N); cbn [andb].
        { constructor; [apply same_class_refl | assumption]. }
        destruct t2 as [|b3 t3]; cbn [JS.toLowerCase] in *;
          [constructor; [apply same_class_refl | assumption]|].
        simpl in Hn. pose proof (IH t3 ltac:(lia)) as IH3.
        destruct (lower_continuation b3) as [C3 K3]. rewrite C3.
        destruct (JS.continuation b3) eqn:B3.
        -- rewrite (K3 eq_refl) in *.
           destruct (240 <=? JS.byte b0)%N; cbn [andb];
             repeat (constructor; try apply same_class_refl); assumption.
        -- rewrite !andb_false_r. constructor; [apply same_class_refl | assumption].
      * rewrite !andb_false_r.
        destruct t2 as [|b3 t3]; cbn [JS.toLowerCase] in *;
          constructor; try apply same_class_refl; assumption.
    + rewrite !andb_false_r. cbn [andb].
      destruct t1 as [|b2 t2]; cbn [JS.toLowerCase] in *;
        [constructor; [apply same_class_refl | assumption]|].
      destruct t2 as [|b3 t3]; cbn [JS.toLowerCase] in *;
        constructor; try apply same_class_refl; assumption.
Qed.

Lemma chars_to_end_class (l l' : list N) :
  Forall2 same_class l l' -> chars_to_end l = chars_to_end l'.
Proof.
  induction 1 as [|u v l l' (Hc & _ & _) _ IH]; simpl; [reflexivity|].
  now rewrite Hc, IH.
Qed.

Lemma match_dot_class (l l' : list N) :
  Forall2 same_class l l' -> match_dot l = match_dot l'.
Proof.
  intros H. destruct H as [|u v l l' (_ & Hd & _) H]; [reflexivity|].
  destruct H as [|u' v' l l' (Hc & _ & _) H]; [reflexivity|].
  simpl. now rewrite Hd, Hc, (chars_to_end_class H).
Qed.

Lemma match_domain_more_class (l l' : list N) :
  Forall2 same_class l l' -> match_domain_more l = match_domain_more l'.
Proof.
  induction 1 as [|u v l l' Huv H IH]; [reflexivity|].
  cbn [match_domain_more]. rewrite IH, (proj1 Huv). f_equal.
  apply match_dot_class. now constructor.
Qed.

Lemma match_at_sign_class (l l' : list N) :
  Forall2 same_class l l' -> match_at_sign l = match_at_sign l'.
Proof.
  intros H. destruct H as [|u v l l' (_ & _ & Ha) H]; [reflexivity|].
  cbn [match_at_sign]. rewrite Ha. f_equal.
  destruct H as [|u' v' l l' (Hc & _ & _) H]; [reflexivity|].
  cbn [match_domain]. now rewrite Hc, (match_domain_more_class H).
Qed.

Lemma match_local_more_class (l l' : list N) :
  Forall2 same_class l l' -> match_local_more l = match_local_more l'.
Proof.
  induction 1 as [|u v l l' Huv H IH]; [reflexivity|].
  cbn [match_local_more]. rewrite IH, (proj1 Huv). f_equal.
  apply match_at_sign_class. now constructor.
Qed.

(** The address check does not look at letter case. *)
Lemma emailRegex_test_lower (s : string) :
  emailRegex_test (JS.toLowerCase s) = emailRegex_test s.
Proof.
  unfold emailRegex_test.
  pose proof (code_units_lower_bounded (n := String.length s) s (le_n _)) as H.
  destruct H as [|u v l l' (Hc & _ & _) H]; [reflexivity|].
  cbn [match_address]. now rewrite Hc, (match_local_more_class H).
Qed.

Lemma emailRegex_test_like (s : string) : emailRegex_test s = true -> address_like s.
Proof. unfold emailRegex_test, address_like. apply match_address_iff. Qed.

Lemma given_some (o : option string) (s : string) :
  Submission.given o = Some s -> o = Some s /\ s <> "".
Proof.
  destruct o as [[|c t]|]; simpl; try discriminate.
  intros [= <-]. split; [reflexivity | discriminate].
Qed.

(** What a 201 answer tells about the request and the database. *)
Lemma submit_created (w : Submission.World) (req : Submission.Request) (db : Db)
    (i : Z) (a : string) (t : Z) :
  fst (Submission.submit w req db) = Submission.Created i a t ->
  exists jobKey address phone f returned,
    Submission.given (Submission.f_jobKey (Submission.body req)) = Some jobKey /\
    Submission.given (Submission.f_email (Submission.body req)) = Some address /\
    Submission.given (Submission.f_phone (Submission.body req)) = Some phone /\
    Submission.file req = Some f /\
    emailRegex_test address = true /\
    (10 <= JS.string_length phone)%nat /\
    filter (Submission.open_job jobKey) (job_descriptions db) <> [] /\
    filter (Submission.same_applicant jobKey address) (applications db) = [] /\
    Submission.insert w
      (Submission.insert_values w jobKey address phone
         (Submission.f_coverLetter (Submission.body req)) f)
      (applications db)
    = Some (returned, applications (snd (Submission.submit w req db))) /\
    i = Submission.r_id returned /\ a = Submission.r_anonymized_id returned /\
    job_descriptions (snd (Submission.submit w req db)) = job_descriptions db /\
    audit_logs (snd (Submission.submit w req db)) = audit_logs db.
Proof.
  unfold Submission.submit.
  destruct (Submission.given (Submission.f_jobKey (Submission.body req))) as [jobKey|];
    [|discriminate].
  destruct (Submission.given (Submission.f_email (Submission.body req))) as [address|];
    [|discriminate].
  destruct (Submission.given (Submission.f_phone (Submission.body req))) as [phone|];
    [|discriminate].
  destruct (Submission.file req) as [f|]; [|discriminate].
  destruct (emailRegex_test address) eqn:Et; [|discriminate]. cbn [negb].
  destruct (Nat.ltb_spec (JS.string_length phone) 10) as [|Hp]; [discriminate|].
  destruct (filter (Submission.open_job jobKey) (job_descriptions db)) as [|j js] eqn:Ej;
    [discriminate|].
  destruct (filter (Submission.same_applicant jobKey address) (applications db))
    as [|x xs] eqn:Ed; [|discriminate].
  destruct (Submission.insert w _ (applications db)) as [[returned table]|] eqn:Ei;
    [|discriminate].
  cbn [fst snd applications job_descriptions audit_logs].
  intros Hc. injection Hc as Hi Ha Hts.
  exists jobKey, address, phone, f, returned. repeat split; auto.
  rewrite Ej. discriminate.
Qed.

Lemma extracted_score_bounds (pick roll : nat) (now fileBuffer fileName : string)
    (job : JobDescription) :
  41 <= totalScore (analyze_locals (extractCVContent pick roll now fileBuffer fileName) job)
  <= 96.
Proof.
  rewrite extracted_total. unfold analyze_locals. cbn [dimensionScores dim_skills]. unfold tier.
  destruct (5 <? roll + 2)%nat;
    repeat match goal with |- context [?a <=? ?b] => destruct (Z.leb_spec a b) end; lia.
Qed.

End SubmissionFacts.

(** X18.  An application is created only from a complete and valid request: job
    key, address, phone and file are all there, the address passes the
    address check, the phone has at least ten characters, counted in code
    units, some job row with the key is active, and, for an address of
    ASCII characters, no application for that job is stored under the
    lower-cased address. *)
Theorem submission_created_only_if_valid (w : Submission.World) (req : Submission.Request)
    (db : Db) (i : Z) (a : string) (t : Z) :
  fst (Submission.submit w req db) = Submission.Created i a t ->
  exists jobKey address phone,
    Submission.f_jobKey (Submission.body req) = Some jobKey /\ jobKey <> "" /\
    Submission.f_email (Submission.body req) = Some address /\ address_like address /\
    Submission.f_phone (Submission.body req) = Some phone /\
    (10 <= JS.string_length phone)%nat /\
    Submission.file req <> None /\
    (exists j, In j (job_descriptions db) /\ job_key j = jobKey /\ is_active j = true) /\
    (ascii_text address ->
     forall row, In row (applications db) -> app_job_key row = Some jobKey ->
                 email row <> JS.toLowerCase address).
Proof.
  intros H. apply submit_created in H.
  destruct H as (jobKey & address & phone & f & returned & Hk & He & Hp & Hf & Ht & Hlen & Hj
                 & Hd & _).
  apply given_some in Hk. apply given_some in He. apply given_some in Hp.
  exists jobKey, address, phone.
  refine (conj (proj1 Hk) (conj (proj2 Hk) (conj (proj1 He) (conj (emailRegex_test_like _ Ht)
            (conj (proj1 Hp) (conj Hlen (conj _ (conj _ _)))))))).
  - rewrite Hf. discriminate.
  - destruct (filter (Submission.open_job jobKey) (job_descriptions db)) as [|j js] eqn:E;
      [congruence|].
    assert (Hin : In j (j :: js)) by now left.
    rewrite <- E in Hin. apply filter_In in Hin. destruct Hin as [Hin Ho].
    unfold Submission.open_job in Ho. apply andb_true_iff in Ho. destruct Ho as [Ho1 Ho2].
    apply String.eqb_eq in Ho1. now exists j.
  - intros _ row Hin Hrk Hre.
    assert (Hx : In row (filter (Submission.same_applicant jobKey address) (applications db))).
    { apply filter_In. split; [assumption|]. unfold Submission.same_applicant.
      rewrite Hrk, Hre. simpl. now rewrite !String.eqb_refl. }
    rewrite Hd in Hx. contradiction.
Qed.

(** X19.  A refusal writes nothing: with every answer but 201 the database is
    exactly as before, and the status is 400, 404, 409 or 500.  No answer
    touches the jobs or the audit log. *)
Theorem submission_refusals_write_nothing (w : Submission.World) (req : Submission.Request)
    (db : Db) :
  (forall status error,
      fst (Submission.submit w req db) = Submission.Refused status error ->
      snd (Submission.submit w req db) = db /\ In status [400; 404; 409; 500]) /\
  job_descriptions (snd (Submission.submit w req db)) = job_descriptions db /\
  audit_logs (snd (Submission.submit w req db)) = audit_logs db.
Proof.
  unfold Submission.submit.
  destruct (Submission.given (Submission.f_jobKey (Submission.body req))) as [jobKey|],
           (Submission.given (Submission.f_email (Submission.body req))) as [address|],
           (Submission.given (Submission.f_phone (Submission.body req))) as [phone|],
           (Submission.file req) as [f|];
    try (cbn [fst snd]; repeat split; auto; intros; inversion H; subst; simpl; auto; fail).
  destruct (negb (Validation.emailRegex_test address));
    [cbn [fst snd]; repeat split; auto; intros; inversion H; subst; simpl; auto|].
  destruct (JS.string_length phone <? 10)%nat;
    [cbn [fst snd]; repeat split; auto; intros; inversion H; subst; simpl; auto|].
  destruct (filter (Submission.open_job jobKey) (job_descriptions db));
    [cbn [fst snd]; repeat split; auto; intros; inversion H; subst; simpl; auto|].
  destruct (filter (Submission.same_applicant jobKey address) (applications db));
    [|cbn [fst snd]; repeat split; auto; intros; inversion H; subst; simpl; auto 6].
  destruct (Submission.insert w _ (applications db)) as [[returned table]|];
    cbn [fst snd job_descriptions audit_logs]; repeat split; auto;
    intros; inversion H; subst; simpl; auto 6.
Qed.

(** X20.  A created application waits for ranking: when the database stores the
    inserted row, the row is in the selection of the next ranking of its job,
    under the anonymized id of the answer, pending and without a score, and
    its CV can be analysed against any job, with a score between 41 and 96. *)
Theorem submitted_application_awaits_ranking (w : Submission.World)
    (req : Submission.Request) (db : Db) (jobKey : string) (i : Z) (a : string) (t : Z) :
  Submission.stores_rows w ->
  Submission.f_jobKey (Submission.body req) = Some jobKey ->
  fst (Submission.submit w req db) = Submission.Created i a t ->
  exists row,
    In row (pending_rows jobKey (snd (Submission.submit w req db))) /\
    id row = i /\ anonymized_id row = a /\ ai_score row = None /\
    status row = Some "pending" /\
    forall job,
      match analyzeApplication (cv_content row) job with
      | Ok analysis => 41 <= score analysis <= 96
      | Throw _ => False
      end.
Proof.
  intros Hw Hkey H. apply submit_created in H.
  destruct H as (k & address & phone & f & returned & Hk & He & Hp & Hf & Ht & Hlen & Hj
                 & Hd & Hi & -> & -> & _).
  apply given_some in Hk. destruct Hk as [Hk _].
  assert (k = jobKey) by congruence. subst k.
  destruct (Hw _ _ _ _ Hi) as [Htable Hanon].
  set (v := Submission.insert_values w jobKey address phone
              (Submission.f_coverLetter (Submission.body req)) f) in *.
  exists (Submission.stored_row v returned).
  refine (conj _ (conj eq_refl (conj _ (conj eq_refl (conj eq_refl _))))).
  - unfold pending_rows. rewrite Htable. apply filter_In. split.
    + apply in_or_app. right. now left.
    + unfold pending_unscored. simpl. now rewrite String.eqb_refl.
  - simpl. now rewrite Hanon.
  - intros job. simpl. apply extracted_score_bounds.
Qed.

(** X21.  The same applicant cannot apply twice for a job, however the address is
    capitalised: when the database stores the inserted row, the request
    repeated with any address that is the same up to letter case is answered
    409 and writes nothing. *)
Theorem second_submission_refused (w w' : Submission.World) (req : Submission.Request)
    (db : Db) (address address' : string) (i : Z) (a : string) (t : Z) :
  Submission.stores_rows w ->
  Submission.f_email (Submission.body req) = Some address ->
  JS.toLowerCase address' = JS.toLowerCase address ->
  fst (Submission.submit w req db) = Submission.Created i a t ->
  Submission.submit w' (with_address req address') (snd (Submission.submit w req db))
  = (already_applied, snd (Submission.submit w req db)).
Proof.
  intros Hw Haddr Hlow H. apply submit_created in H.
  destruct H as (jobKey & addr & phone & f & returned & Hk & He & Hp & Hf & Ht & Hlen & Hj
                 & Hd & Hi & _ & _ & Hjobs & _).
  destruct (given_some _ He) as [He' _].
  assert (addr = address) by congruence. subst addr.
  destruct (Hw _ _ _ _ Hi) as [Htable _].
  assert (Ht' : Validation.emailRegex_test address' = true).
  { now rewrite <- emailRegex_test_lower, Hlow, emailRegex_test_lower. }
  assert (He2 : Submission.given (Some address') = Some address').
  { destruct address'; [discriminate Ht' | reflexivity]. }
  unfold Submission.submit at 1. unfold with_address at 1 2 3 4.
  cbn [Submission.body Submission.file Submission.f_jobKey Submission.f_email
       Submission.f_phone Submission.f_coverLetter].
  rewrite Hk, He2, Hp, Hf, Ht'. cbn [negb].
  destruct (Nat.ltb_spec (JS.string_length phone) 10) as [Hlt|_]; [lia|].
  rewrite Hjobs.
  destruct (filter (Submission.open_job jobKey) (job_descriptions db)) as [|j js];
    [congruence|].
  rewrite Htable, filter_app.
  replace (filter (Submission.same_applicant jobKey address')
             [Submission.stored_row
                (Submission.insert_values w jobKey address phone
                   (Submission.f_coverLetter (Submission.body req)) f) returned])
    with [Submission.stored_row
            (Submission.insert_values w jobKey address phone
               (Submission.f_coverLetter (Submission.body req)) f) returned].
  - destruct (filter (Submission.same_applicant jobKey address') (applications db));
      reflexivity.
  - cbn [filter]. unfold Submission.same_applicant. simpl.
    now rewrite Hlow, !String.eqb_refl.
Qed.

Lemma accepting_insert_stores : Submission.stores_rows sample_world.
Proof.
  intros v table returned table' H. simpl in H. unfold accepting_insert in H.
  injection H as <- <-. split; reflexivity.
Qed.

Lemma submission_created_only_if_valid_witness :
  fst (Submission.submit sample_world (sample_submission "Jane.Doe@Example.org") db_open_job)
  = Submission.Created 1 "APP_K3J2H5" 1700000000 /\
  (exists jobKey address phone,
    Submission.f_jobKey (Submission.body (sample_submission "Jane.Doe@Example.org"))
    = Some jobKey /\
    Submission.f_email (Submission.body (sample_submission "Jane.Doe@Example.org"))
    = Some address /\
    address_like address /\
    Submission.f_phone (Submission.body (sample_submission "Jane.Doe@Example.org"))
    = Some phone /\
    (10 <= JS.string_length phone)%nat) /\
  fst (Submission.submit sample_world nine_digit_submission db_open_job)
  = Submission.Refused 400 "Phone number must be at least 10 digits".
Proof.
  refine (conj eq_refl (conj _ eq_refl)).
  destruct (@submission_created_only_if_valid sample_world
              (sample_submission "Jane.Doe@Example.org") db_open_job 1 "APP_K3J2H5" 1700000000
              eq_refl)
    as (jobKey & address & phone & H1 & _ & H2 & H3 & H4 & H5 & _).
  exists jobKey, address, phone. exact (conj H1 (conj H2 (conj H3 (conj H4 H5)))).
Defined.

Lemma submitted_application_awaits_ranking_witness :
  exists row,
    In row (pending_rows "dev"
              (snd (Submission.submit sample_world (sample_submission "Jane.Doe@Example.org")
                      db_open_job))) /\
    anonymized_id row = "APP_K3J2H5".
Proof.
  destruct (@submitted_application_awaits_ranking sample_world
              (sample_submission "Jane.Doe@Example.org") db_open_job "dev" 1 "APP_K3J2H5"
              1700000000 accepting_insert_stores eq_refl eq_refl)
    as [row (Hin & _ & Ha & _)].
  exists row. exact (conj Hin Ha).
Defined.

Lemma second_submission_refused_witness :
  Submission.submit sample_world (sample_submission "JANE.DOE@EXAMPLE.ORG")
    (snd (Submission.submit sample_world (sample_submission "Jane.Doe@Example.org")
            db_open_job))
  = (already_applied,
     snd (Submission.submit sample_world (sample_submission "Jane.Doe@Example.org")
            db_open_job)).
Proof.
  exact (@second_submission_refused sample_world sample_world
           (sample_submission "Jane.Doe@Example.org") db_open_job
           "Jane.Doe@Example.org" "JANE.DOE@EXAMPLE.ORG" 1 "APP_K3J2H5" 1700000000
           accepting_insert_stores eq_refl eq_refl eq_refl).
Defined.

(* ================================================================== *)
(** * Properties of the decision endpoint *)

Section DecisionFacts.


Lemma set_status_same (s : string) (target : Z) (a : Application) :
  same_but_status a (Decision.set_status s target a).
Proof.
  unfold same_but_status, Decision.set_status.
  destruct (id a =? target); simpl; repeat split; reflexivity.
Qed.

Lemma updated_table_same (s : string) (target : Z) (tbl : list Application) :
  Forall2 same_but_status tbl (map (Decision.set_status s target) tbl).
Proof.
  induction tbl as [|r tbl IH]; simpl; constructor; [apply set_status_same | assumption].
Qed.

Lemma table_same_refl (tbl : list Application) : Forall2 same_but_status tbl tbl.
Proof.
  induction tbl as [|r tbl IH]; constructor; [|assumption].
  unfold same_but_status. repeat split; reflexivity.
Qed.


Lemma joined_same (target : Z) (d1 d2 : Db) :
  job_descriptions d1 = job_descriptions d2 ->
  Forall2 same_but_status (applications d1) (applications d2) ->
  map (fun p => (anonymized_id (fst p), snd p)) (Decision.joined target d1)
  = map (fun p => (anonymized_id (fst p), snd p)) (Decision.joined target d2).
Proof.
  unfold Decision.joined. intros Hj. rewrite Hj.
  induction 1 as [|a1 a2 l1 l2 Ha _ IH]; [reflexivity|].
  destruct Ha as (Hid & Hk & _ & _ & _ & _ & _ & _ & _ & Han & _).
  cbn [filter]. rewrite Hid.
  destruct (id a1 =? target); [|exact IH].
  cbn [flat_map]. rewrite !map_app, IH, !map_map, Hk. cbn [fst snd]. now rewrite Han.
Qed.

End DecisionFacts.


(** X23.  The status is stored before the mail goes out: when the mail fails, the
    answer is 500 and no audit row is written, yet every row with the id
    already carries the new status. *)
Theorem decision_persists_before_mail (req : Decision.Request) (st : Decision.State)
    (new_status : string) (application : Application) (job_title : string)
    (rows : list (Application * string)) :
  Decision.allowed (Decision.b_status req) = Some new_status ->
  Decision.joined (Decision.param_id req) (Decision.db st) = (application, job_title) :: rows ->
  fst (Decision.decide false req st) = Decision.Refused 500 "Failed to update application status" /\
  Decision.audit (snd (Decision.decide false req st)) = Decision.audit st /\
  (forall row,
      In row (applications (Decision.db (snd (Decision.decide false req st)))) ->
      id row = Decision.param_id req -> status row = Some new_status) /\
  exists row,
    In row (applications (Decision.db (snd (Decision.decide false req st)))) /\
    id row = Decision.param_id req.
Proof.
  intros Ha Hj. unfold Decision.decide. rewrite Ha, Hj.
  cbn [fst snd Decision.db Decision.audit Decision.update_status applications].
  refine (conj eq_refl (conj eq_refl (conj _ _))).
  - intros row Hin Hid. apply in_map_iff in Hin. destruct Hin as [a [<- _]].
    unfold Decision.set_status in *. destruct (Z.eqb_spec (id a) (Decision.param_id req)).
    + reflexivity.
    + contradiction.
  - assert (Hin : In (application, job_title)
                    (Decision.joined (Decision.param_id req) (Decision.db st)))
      by (rewrite Hj; now left).
    unfold Decision.joined in Hin. apply in_flat_map in Hin. destruct Hin as [a [Ha1 Ha2]].
    apply filter_In in Ha1. destruct Ha1 as [Hin Hid]. apply Z.eqb_eq in Hid.
    exists (Decision.set_status new_status (Decision.param_id req) a). split.
    + now apply in_map.
    + unfold Decision.set_status. destruct (id a =? Decision.param_id req); assumption.
Qed.


(** X25.  A decision is not final: the endpoint does not read the current status,
    so it answers an application that is already decided exactly as it would
    answer it while pending. *)
Theorem decision_ignores_current_status (mail_sent : bool) (req : Decision.Request)
    (st1 st2 : Decision.State) :
  job_descriptions (Decision.db st1) = job_descriptions (Decision.db st2) ->
  Forall2 same_but_status (applications (Decision.db st1)) (applications (Decision.db st2)) ->
  fst (Decision.decide mail_sent req st1) = fst (Decision.decide mail_sent req st2).
Proof.
  intros Hj Ha. unfold Decision.decide.
  destruct (Decision.allowed (Decision.b_status req)) as [s|]; [|reflexivity].
  pose proof (joined_same (Decision.param_id req) _ _ Hj Ha) as H.
  destruct (Decision.joined (Decision.param_id req) (Decision.db st1)) as [|[a1 t1] r1],
           (Decision.joined (Decision.param_id req) (Decision.db st2)) as [|[a2 t2] r2];
    try discriminate; [reflexivity|].
  destruct mail_sent; reflexivity.
Qed.

Lemma decision_persists_before_mail_witness :
  fst (Decision.decide false (reviewer_decision 1 "accepted") state_tie)
  = Decision.Refused 500 "Failed to update application status" /\
  exists row,
    In row (applications
              (Decision.db (snd (Decision.decide false (reviewer_decision 1 "accepted")
                                   state_tie)))) /\
    id row = 1.
Proof.
  destruct (@decision_persists_before_mail (reviewer_decision 1 "accepted") state_tie
              "accepted"
              (application 1 "ann@example.org" "APP_AAA111" (Some (extracted_cv redacted)) 100)
              "Developer" [] eq_refl eq_refl)
    as (H1 & _ & _ & H4).
  exact (conj H1 H4).
Defined.


Lemma decision_ignores_current_status_witness :
  fst (Decision.decide true (reviewer_decision 1 "rejected") state_tie)
  = fst (Decision.decide true (reviewer_decision 1 "rejected")
           (snd (Decision.decide true (reviewer_decision 1 "accepted") state_tie))).
Proof.
  exact (@decision_ignores_current_status true (reviewer_decision 1 "rejected") state_tie
           (snd (Decision.decide true (reviewer_decision 1 "accepted") state_tie))
           eq_refl (updated_table_same "accepted" 1 (applications db_tie))).
Defined.
